(** * langchain-nextjs-chat: the route handlers and the vector-store function

    A shallow embedding of
    - the retrieval handler, first [POST] of
      [app/api/chat/retrieval/route.ts],
    - the agent handler, the second [POST] kept in that file,
    - the plain chat handler (the [POST] with [formatMessage]),
    - [app/api/chat/structured_output/route.ts],
    - the [match_documents] function of [SUPABASE_SETUP.sql] and of
      [SUPABASE_SETUP_grok.sql].

    JavaScript strings are sequences of UTF-16 code units, buffers are
    sequences of octets, thrown values are [Error] objects, and every call
    that leaves the process (the chat model, the retriever, the agent) is
    an oracle of the environment that either answers or throws. The
    request body is the object the chat window of the repository sends:
    [messages] absent, null or a list of messages whose role and content
    are strings. What the database extension computes (the distance
    operator, the scan of its index) is an oracle as well. *)

From Stdlib Require Import ZArith NArith List String Ascii Bool Lia.
From Stdlib Require Import DecimalString DecimalN.
From Stdlib Require Import Sorted Permutation.
From Stdlib Require Import Reals Lra.
Import ListNotations.

Set Implicit Arguments.
Set Warnings "-register-all".

Open Scope string_scope.
Open Scope list_scope.

(** ** The JavaScript built-ins the handlers call *)

Module JS.

(** A string is its UTF-16 code units, each below 65536. *)
Definition jsstring := list N.

(** A buffer is its octets, each below 256. *)
Definition buffer := list N.

(** An ASCII literal of the source text. *)
Definition js (s : string) : jsstring :=
  map N_of_ascii (list_ascii_of_string s).

Definition jsstring_eqb (a b : jsstring) : bool :=
  if list_eq_dec N.eq_dec a b then true else false.

(** [Array.prototype.slice] and [String.prototype.slice]: a negative
    index counts from the end, and both ends are clamped to the length. *)
Definition relative_index (len k : Z) : Z :=
  if (k <? 0)%Z then Z.max (len + k) 0 else Z.min k len.

Definition slice {A : Type} (l : list A) (start final : Z) : list A :=
  let len := Z.of_nat (List.length l) in
  let from := relative_index len start in
  let to := relative_index len final in
  firstn (Z.to_nat (Z.max (to - from) 0)) (skipn (Z.to_nat from) l).

(** [Array.prototype.join]. *)
Fixpoint join (sep : jsstring) (parts : list jsstring) : jsstring :=
  match parts with
  | [] => []
  | [p] => p
  | p :: rest => p ++ sep ++ join sep rest
  end.

(** [Number.prototype.toString] on a non-negative integer. *)
Definition Number_toString (n : N) : jsstring :=
  js (NilZero.string_of_uint (N.to_uint n)).

(** The inverse reading, [Number.parseInt] on a digit string. *)
Definition parse_decimal (s : string) : option N :=
  option_map N.of_uint (NilZero.uint_of_string s).

(** *** JSON values and [JSON.stringify] *)

(** A number is told by the text [Number::toString] prints for it, the
    shortest decimal that reads back as the number: [1], [0.5], [1e+21].
    The text of a number that is not finite is no number of JSON. The two
    zeros print alike and are not told apart. *)
Record number : Type := { literal : jsstring }.

Definition is_digit (c : N) : bool := ((48 <=? c) && (c <=? 57))%N.

(** The characters a number of JSON is made of: digits, [-], [+], [.],
    [e] and [E]. *)
Definition number_char (c : N) : bool :=
  (is_digit c || (c =? 45) || (c =? 43) || (c =? 46) || (c =? 101) || (c =? 69))%N.

(** The grammar of a number: [-]? int frac? exp?. Each part answers
    what follows it. *)
Fixpoint digits (s : jsstring) : jsstring :=
  match s with
  | c :: rest => if is_digit c then digits rest else s
  | [] => []
  end.

Definition digits1 (s : jsstring) : option jsstring :=
  match s with
  | c :: rest => if is_digit c then Some (digits rest) else None
  | [] => None
  end.

Definition minus_sign (s : jsstring) : jsstring :=
  match s with
  | c :: rest => if (c =? 45)%N then rest else s
  | [] => []
  end.

Definition integer_part (s : jsstring) : option jsstring :=
  match s with
  | c :: rest =>
      if (c =? 48)%N then Some rest
      else if is_digit c then Some (digits rest)
      else None
  | [] => None
  end.

Definition fraction_part (s : jsstring) : option jsstring :=
  match s with
  | c :: rest => if (c =? 46)%N then digits1 rest else Some s
  | [] => Some s
  end.

Definition exponent_part (s : jsstring) : option jsstring :=
  match s with
  | c :: rest =>
      if ((c =? 101) || (c =? 69))%N then
        match rest with
        | d :: rest' => if ((d =? 43) || (d =? 45))%N then digits1 rest' else digits1 rest
        | [] => None
        end
      else Some s
  | [] => Some s
  end.

Definition JSON_number (text : jsstring) : bool :=
  forallb number_char text
  && match integer_part (minus_sign text) with
     | Some s1 =>
         match fraction_part s1 with
         | Some s2 =>
             match exponent_part s2 with
             | Some [] => true
             | _ => false
             end
         | None => false
         end
     | None => false
     end.

(** A value that came out of [JSON.parse]; an object keeps its properties
    in the order the engine enumerates them. *)
Inductive json : Type :=
| JNull
| JBool (b : bool)
| JNum (x : number)
| JStr (s : jsstring)
| JArr (items : list json)
| JObj (props : list (jsstring * json)).

Definition hex_digit (d : N) : N :=
  if (d <? 10)%N then (48 + d)%N else (87 + d)%N.

(** [\uXXXX] with lower-case digits. *)
Definition unicode_escape (c : N) : jsstring :=
  [92; 117; hex_digit (N.shiftr c 12); hex_digit (N.land (N.shiftr c 8) 15);
   hex_digit (N.land (N.shiftr c 4) 15); hex_digit (N.land c 15)]%N.

Definition is_high_surrogate (c : N) : bool :=
  ((55296 <=? c) && (c <=? 56319))%N.

Definition is_low_surrogate (c : N) : bool :=
  ((56320 <=? c) && (c <=? 57343))%N.

(** One code unit that is not a surrogate, as [QuoteJSONString] has it. *)
Definition quote_unit (c : N) : jsstring :=
  if (c =? 8)%N then js "\b"
  else if (c =? 9)%N then js "\t"
  else if (c =? 10)%N then js "\n"
  else if (c =? 12)%N then js "\f"
  else if (c =? 13)%N then js "\r"
  else if (c =? 34)%N then [92; 34]%N
  else if (c =? 92)%N then [92; 92]%N
  else if (c <? 32)%N then unicode_escape c
  else [c].

(** A surrogate pair is kept, a lone surrogate is escaped. *)
Fixpoint quote_units (s : jsstring) : jsstring :=
  match s with
  | [] => []
  | c :: rest =>
      if is_high_surrogate c then
        match rest with
        | d :: rest' =>
            if is_low_surrogate d then c :: d :: quote_units rest'
            else unicode_escape c ++ quote_units rest
        | [] => unicode_escape c
        end
      else if is_low_surrogate c then unicode_escape c ++ quote_units rest
      else quote_unit c ++ quote_units rest
  end.

Definition QuoteJSONString (s : jsstring) : jsstring :=
  [34%N] ++ quote_units s ++ [34%N].

(** A number that is not finite is written [null]. *)
Fixpoint JSON_stringify (v : json) : jsstring :=
  match v with
  | JNull => js "null"
  | JBool true => js "true"
  | JBool false => js "false"
  | JNum x => if JSON_number (literal x) then literal x else js "null"
  | JStr s => QuoteJSONString s
  | JArr items =>
      js "[" ++ join (js ",") (map JSON_stringify items) ++ js "]"
  | JObj props =>
      js "{" ++
      join (js ",")
        (map (fun kv => QuoteJSONString (fst kv) ++ js ":" ++ JSON_stringify (snd kv))
             props) ++
      js "}"
  end.

(** *** The properties of an object, in the order of the engine *)

(** A key that is an array index: the decimal text, without leading
    zero, of an integer below 2^32 - 1. *)
Definition decimal_value (s : jsstring) : N :=
  fold_left (fun acc c => (acc * 10 + (c - 48))%N) s 0%N.

Definition array_index (key : jsstring) : option N :=
  match key with
  | [] => None
  | c :: rest =>
      if forallb is_digit key
         && (negb (c =? 48)%N || match rest with [] => true | _ :: _ => false end)
         && (N.of_nat (List.length key) <=? 10)%N
         && (decimal_value key <? 4294967295)%N
      then Some (decimal_value key)
      else None
  end.

Fixpoint has_property (key : jsstring) (props : list (jsstring * json)) : bool :=
  match props with
  | [] => false
  | kv :: rest => jsstring_eqb (fst kv) key || has_property key rest
  end.

Fixpoint set_property (key : jsstring) (v : json) (props : list (jsstring * json))
    : list (jsstring * json) :=
  match props with
  | [] => []
  | kv :: rest =>
      if jsstring_eqb (fst kv) key then (key, v) :: rest
      else kv :: set_property key v rest
  end.

(** A new index goes after the smaller indices and before everything
    else. *)
Fixpoint insert_index (n : N) (kv : jsstring * json) (props : list (jsstring * json))
    : list (jsstring * json) :=
  match props with
  | [] => [kv]
  | p :: rest =>
      match array_index (fst p) with
      | Some m => if (m <? n)%N then p :: insert_index n kv rest else kv :: props
      | None => kv :: props
      end
  end.

(** [CreateDataProperty]: a key that is there gets the new value in its
    place; a new index is put among the indices, in ascending order; any
    other new key goes last. *)
Definition CreateDataProperty (props : list (jsstring * json)) (key : jsstring) (v : json)
    : list (jsstring * json) :=
  if has_property key props then set_property key v props
  else
    match array_index key with
    | Some n => insert_index n (key, v) props
    | None => props ++ [(key, v)]
    end.

Definition own_properties (members : list (jsstring * json)) : list (jsstring * json) :=
  fold_left (fun props kv => CreateDataProperty props (fst kv) (snd kv)) members [].

(** Every code unit of a string is below 65536, every number is finite,
    and the properties of every object are in the order of the engine,
    each key once. *)
Definition code_units (s : jsstring) : Prop := Forall (fun c => (c < 65536)%N) s.

Fixpoint well_formed (v : json) : Prop :=
  match v with
  | JNum x => JSON_number (literal x) = true
  | JStr s => code_units s
  | JArr items =>
      (fix all (l : list json) : Prop :=
         match l with
         | [] => True
         | x :: l' => well_formed x /\ all l'
         end) items
  | JObj props =>
      own_properties props = props
      /\ (fix all (l : list (jsstring * json)) : Prop :=
            match l with
            | [] => True
            | kv :: l' => code_units (fst kv) /\ well_formed (snd kv) /\ all l'
            end) props
  | _ => True
  end.

(** *** [JSON.parse] *)

Definition is_whitespace (c : N) : bool :=
  ((c =? 9) || (c =? 10) || (c =? 13) || (c =? 32))%N.

Fixpoint skip_whitespace (s : jsstring) : jsstring :=
  match s with
  | c :: rest => if is_whitespace c then skip_whitespace rest else s
  | [] => []
  end.

Definition hex_value (c : N) : option N :=
  if is_digit c then Some (c - 48)%N
  else if ((97 <=? c) && (c <=? 102))%N then Some (c - 87)%N
  else if ((65 <=? c) && (c <=? 70))%N then Some (c - 55)%N
  else None.

(** The character after a backslash, [u] apart. *)
Definition escaped (c : N) : option N :=
  if (c =? 34)%N then Some 34%N
  else if (c =? 92)%N then Some 92%N
  else if (c =? 47)%N then Some 47%N
  else if (c =? 98)%N then Some 8%N
  else if (c =? 102)%N then Some 12%N
  else if (c =? 110)%N then Some 10%N
  else if (c =? 114)%N then Some 13%N
  else if (c =? 116)%N then Some 9%N
  else None.

(** A string after its opening quote: the code units it denotes and what
    follows the closing quote. A control character is refused. *)
Fixpoint string_characters (s : jsstring) : option (jsstring * jsstring) :=
  match s with
  | [] => None
  | c :: r =>
      if (c =? 34)%N then Some ([], r)
      else if (c =? 92)%N then
        match r with
        | [] => None
        | e :: r1 =>
            if (e =? 117)%N then
              match r1 with
              | h1 :: h2 :: h3 :: h4 :: r2 =>
                  match hex_value h1, hex_value h2, hex_value h3, hex_value h4 with
                  | Some a, Some b, Some c', Some d =>
                      match string_characters r2 with
                      | Some (text, rest) =>
                          Some ((a * 4096 + b * 256 + c' * 16 + d)%N :: text, rest)
                      | None => None
                      end
                  | _, _, _, _ => None
                  end
              | _ => None
              end
            else
              match escaped e with
              | Some u =>
                  match string_characters r1 with
                  | Some (text, rest) => Some (u :: text, rest)
                  | None => None
                  end
              | None => None
              end
        end
      else if (c <? 32)%N then None
      else
        match string_characters r with
        | Some (text, rest) => Some (c :: text, rest)
        | None => None
        end
  end.

(** [true], [false] and [null]. *)
Fixpoint keyword (word s : jsstring) : option jsstring :=
  match word, s with
  | [], _ => Some s
  | w :: word', c :: rest => if (w =? c)%N then keyword word' rest else None
  | _ :: _, [] => None
  end.

(** The longest beginning made of the characters of a number. *)
Fixpoint number_token (s : jsstring) : jsstring * jsstring :=
  match s with
  | c :: rest =>
      if number_char c then
        let (token, rest') := number_token rest in (c :: token, rest')
      else ([], s)
  | [] => ([], [])
  end.

Section Parse.
(** [StringToNumber] of the engine: the number a literal denotes. *)
Variable StringToNumber : jsstring -> number.

(** A value and what follows it; [None] is the [SyntaxError]. The fuel
    bounds the nesting and the number of elements read. *)
Fixpoint parse_value (fuel : nat) (s : jsstring) : option (json * jsstring) :=
  match fuel with
  | O => None
  | S fuel' =>
      match skip_whitespace s with
      | [] => None
      | c :: r =>
          if (c =? 110)%N then
            option_map (fun rest => (JNull, rest)) (keyword (js "ull") r)
          else if (c =? 116)%N then
            option_map (fun rest => (JBool true, rest)) (keyword (js "rue") r)
          else if (c =? 102)%N then
            option_map (fun rest => (JBool false, rest)) (keyword (js "alse") r)
          else if (c =? 34)%N then
            option_map (fun tr => (JStr (fst tr), snd tr)) (string_characters r)
          else if (c =? 91)%N then
            match skip_whitespace r with
            | c' :: r' =>
                if (c' =? 93)%N then Some (JArr [], r')
                else
                  option_map (fun ir => (JArr (fst ir), snd ir)) (parse_elements fuel' r)
            | [] => None
            end
          else if (c =? 123)%N then
            match skip_whitespace r with
            | c' :: r' =>
                if (c' =? 125)%N then Some (JObj [], r')
                else
                  option_map (fun mr => (JObj (own_properties (fst mr)), snd mr))
                             (parse_members fuel' r)
            | [] => None
            end
          else
            let (token, rest) := number_token (c :: r) in
            if JSON_number token then Some (JNum (StringToNumber token), rest)
            else None
      end
  end

with parse_elements (fuel : nat) (s : jsstring) : option (list json * jsstring) :=
  match fuel with
  | O => None
  | S fuel' =>
      match parse_value fuel' s with
      | Some (v, r) =>
          match skip_whitespace r with
          | c :: r' =>
              if (c =? 44)%N then
                option_map (fun ir => (v :: fst ir, snd ir)) (parse_elements fuel' r')
              else if (c =? 93)%N then Some ([v], r')
              else None
          | [] => None
          end
      | None => None
      end
  end

with parse_members (fuel : nat) (s : jsstring)
    : option (list (jsstring * json) * jsstring) :=
  match fuel with
  | O => None
  | S fuel' =>
      match skip_whitespace s with
      | q :: r0 =>
          if (q =? 34)%N then
            match string_characters r0 with
            | Some (key, r1) =>
                match skip_whitespace r1 with
                | colon :: r2 =>
                    if (colon =? 58)%N then
                      match parse_value fuel' r2 with
                      | Some (v, r3) =>
                          match skip_whitespace r3 with
                          | c :: r4 =>
                              if (c =? 44)%N then
                                option_map (fun mr => ((key, v) :: fst mr, snd mr))
                                           (parse_members fuel' r4)
                              else if (c =? 125)%N then Some ([(key, v)], r4)
                              else None
                          | [] => None
                          end
                      | None => None
                      end
                    else None
                | [] => None
                end
            | None => None
            end
          else None
      | [] => None
      end
  end.

(** [JSON.parse(text)]: one value, with white space around it at most. *)
Definition JSON_parse (text : jsstring) : option json :=
  match parse_value (S (List.length text)) text with
  | Some (v, rest) =>
      match skip_whitespace rest with
      | [] => Some v
      | _ :: _ => None
      end
  | None => None
  end.
(** The numbers of a value are read back from their texts: for each
    number [x] of the value, the engine reads the text it prints for [x]
    as [x]. *)
Fixpoint reads_back (v : json) : Prop :=
  match v with
  | JNum x => StringToNumber (literal x) = x
  | JArr items =>
      (fix all (l : list json) : Prop :=
         match l with
         | [] => True
         | x :: l' => reads_back x /\ all l'
         end) items
  | JObj props =>
      (fix all (l : list (jsstring * json)) : Prop :=
         match l with
         | [] => True
         | kv :: l' => reads_back (snd kv) /\ all l'
         end) props
  | _ => True
  end.
End Parse.

(** The number of values and of elements in a value. *)
Fixpoint size (v : json) : nat :=
  match v with
  | JArr items =>
      S ((fix sum (l : list json) : nat :=
            match l with
            | [] => O
            | x :: l' => S (size x + sum l')
            end) items)
  | JObj props =>
      S ((fix sum (l : list (jsstring * json)) : nat :=
            match l with
            | [] => O
            | kv :: l' => S (size (snd kv) + sum l')
            end) props)
  | _ => 1%nat
  end.

(** A string without a lone surrogate. *)
Fixpoint paired (s : jsstring) : bool :=
  match s with
  | [] => true
  | c :: rest =>
      if is_high_surrogate c then
        match rest with
        | d :: rest' => is_low_surrogate d && paired rest'
        | [] => false
        end
      else negb (is_low_surrogate c) && paired rest
  end.

(** *** [Buffer.from(text)]: the UTF-8 octets of a string *)

Definition utf8_of_code_point (cp : N) : buffer :=
  if (cp <? 128)%N then [cp]
  else if (cp <? 2048)%N then
    [192 + N.shiftr cp 6; 128 + N.land cp 63]%N
  else if (cp <? 65536)%N then
    [224 + N.shiftr cp 12; 128 + N.land (N.shiftr cp 6) 63; 128 + N.land cp 63]%N
  else
    [240 + N.shiftr cp 18; 128 + N.land (N.shiftr cp 12) 63;
     128 + N.land (N.shiftr cp 6) 63; 128 + N.land cp 63]%N.

(** A lone surrogate becomes U+FFFD. *)
Fixpoint Buffer_from (s : jsstring) : buffer :=
  match s with
  | [] => []
  | c :: rest =>
      if is_high_surrogate c then
        match rest with
        | d :: rest' =>
            if is_low_surrogate d then
              utf8_of_code_point (65536 + N.shiftl (c - 55296) 10 + (d - 56320))%N
                ++ Buffer_from rest'
            else utf8_of_code_point 65533 ++ Buffer_from rest
        | [] => utf8_of_code_point 65533
        end
      else if is_low_surrogate c then utf8_of_code_point 65533 ++ Buffer_from rest
      else utf8_of_code_point c ++ Buffer_from rest
  end.

(** [TextEncoder.prototype.encode] is the same encoding. *)
Definition TextEncoder_encode (s : jsstring) : buffer := Buffer_from s.

(** *** [buffer.toString("base64")] and [Buffer.from(text, "base64")] *)

Definition base64_char (d : N) : N :=
  if (d <? 26)%N then (65 + d)%N
  else if (d <? 52)%N then (71 + d)%N
  else if (d <? 62)%N then (d - 4)%N
  else if (d =? 62)%N then 43%N
  else 47%N.

Definition base64_digit (c : N) : option N :=
  if ((65 <=? c) && (c <=? 90))%N then Some (c - 65)%N
  else if ((97 <=? c) && (c <=? 122))%N then Some (c - 71)%N
  else if ((48 <=? c) && (c <=? 57))%N then Some (c + 4)%N
  else if (c =? 43)%N then Some 62%N
  else if (c =? 47)%N then Some 63%N
  else None.

Fixpoint toString_base64 (b : buffer) : jsstring :=
  match b with
  | [] => []
  | [x] =>
      [base64_char (x / 4); base64_char ((x mod 4) * 16); 61; 61]%N
  | [x; y] =>
      [base64_char (x / 4); base64_char ((x mod 4) * 16 + y / 16);
       base64_char ((y mod 16) * 4); 61]%N
  | x :: y :: z :: rest =>
      [base64_char (x / 4); base64_char ((x mod 4) * 16 + y / 16);
       base64_char ((y mod 16) * 4 + z / 64); base64_char (z mod 64)]%N
        ++ toString_base64 rest
  end.

(** The reader of the header: four characters give three octets, and
    padding ends the text. *)
Fixpoint Buffer_from_base64 (s : jsstring) : buffer :=
  match s with
  | a :: b :: c :: d :: rest =>
      match base64_digit a, base64_digit b with
      | Some p, Some q =>
          match base64_digit c with
          | Some r =>
              match base64_digit d with
              | Some t =>
                  [p * 4 + q / 16; (q mod 16) * 16 + r / 4; (r mod 4) * 64 + t]%N
                    ++ Buffer_from_base64 rest
              | None => [p * 4 + q / 16; (q mod 16) * 16 + r / 4]%N
              end
          | None => [p * 4 + q / 16]%N
          end
      | _, _ => []
      end
  | _ => []
  end.


(** *** [buffer.toString("utf8")] *)

Definition continuation (lower upper b : N) : bool := ((lower <=? b) && (b <=? upper))%N.

(** The code points of a buffer: a sequence that is not UTF-8 gives
    U+FFFD for its longest part that begins a valid sequence, and the
    reading goes on after that part. *)
Fixpoint utf8_decode (b : buffer) : list N :=
  match b with
  | [] => []
  | b0 :: r0 =>
      if (b0 <? 128)%N then b0 :: utf8_decode r0
      else if ((194 <=? b0) && (b0 <=? 223))%N then
        match r0 with
        | b1 :: r1 =>
            if continuation 128 191 b1 then
              ((b0 - 192) * 64 + (b1 - 128))%N :: utf8_decode r1
            else 65533%N :: utf8_decode r0
        | [] => [65533%N]
        end
      else if ((224 <=? b0) && (b0 <=? 239))%N then
        match r0 with
        | b1 :: r1 =>
            if continuation (if (b0 =? 224)%N then 160 else 128)
                            (if (b0 =? 237)%N then 159 else 191) b1 then
              match r1 with
              | b2 :: r2 =>
                  if continuation 128 191 b2 then
                    ((b0 - 224) * 4096 + (b1 - 128) * 64 + (b2 - 128))%N :: utf8_decode r2
                  else 65533%N :: utf8_decode r1
              | [] => [65533%N]
              end
            else 65533%N :: utf8_decode r0
        | [] => [65533%N]
        end
      else if ((240 <=? b0) && (b0 <=? 244))%N then
        match r0 with
        | b1 :: r1 =>
            if continuation (if (b0 =? 240)%N then 144 else 128)
                            (if (b0 =? 244)%N then 143 else 191) b1 then
              match r1 with
              | b2 :: r2 =>
                  if continuation 128 191 b2 then
                    match r2 with
                    | b3 :: r3 =>
                        if continuation 128 191 b3 then
                          ((b0 - 240) * 262144 + (b1 - 128) * 4096
                           + (b2 - 128) * 64 + (b3 - 128))%N :: utf8_decode r3
                        else 65533%N :: utf8_decode r2
                    | [] => [65533%N]
                    end
                  else 65533%N :: utf8_decode r1
              | [] => [65533%N]
              end
            else 65533%N :: utf8_decode r0
        | [] => [65533%N]
        end
      else 65533%N :: utf8_decode r0
  end.

Definition utf16_of_code_point (cp : N) : jsstring :=
  if (cp <? 65536)%N then [cp]
  else [55296 + (cp - 65536) / 1024; 56320 + (cp - 65536) mod 1024]%N.

Definition toString_utf8 (b : buffer) : jsstring :=
  flat_map utf16_of_code_point (utf8_decode b).

End JS.

Import JS.

(** ** Requests, responses and thrown values *)

Module Next.

(** A thrown [Error]: its message and, on errors of the HTTP clients, the
    status of the failed call, an integer ([None] when the property is
    absent or null). *)
Record JsError : Type := { message : jsstring; status : option Z }.

Inductive Result (A : Type) : Type :=
| Ok (a : A)
| Throw (e : JsError).
Arguments Throw {A} e.

(** A stream: the chunks put into it and, when it breaks off after
    them, the failure that ends it. An iterator that is read to its end
    delivers every chunk and then throws the failure. *)
Record Stream (A : Type) : Type := { chunks : list A; failure : option JsError }.

Definition stream_map {A B : Type} (f : A -> B) (s : Stream A) : Stream B :=
  {| chunks := map f (chunks s); failure := failure s |}.

(** What the reader of a [ReadableStream] gets. A stream that is closed
    delivers every chunk. A stream that is errored drops the chunks still
    in its queue: the reader has got a beginning of the chunks, as far as
    it had read, and then gets the error. *)
Inductive reads {A : Type} (s : Stream A) : list A -> option JsError -> Prop :=
| reads_closed : failure s = None -> reads s (chunks s) None
| reads_errored (e : JsError) (n : nat) :
    failure s = Some e -> reads s (firstn n (chunks s)) (Some e).

Record VercelChatMessage : Type := { role : jsstring; content : jsstring }.

(** The parsed request body, an object; [messages] is [None] when the
    property is missing or null, [show_intermediate_steps] is its
    truthiness. *)
Record RequestBody : Type :=
  { messages : option (list VercelChatMessage);
    show_intermediate_steps : bool }.

(** [req.json()] answers the body or throws on text that is not JSON. *)
Record NextRequest : Type := { json_ : Result RequestBody }.

(** The body of a response: a JSON text, a stream of octets, or a
    stream whose chunks are strings as the chain delivered them. *)
Inductive ResponseBody : Type :=
| JsonBody (v : json)
| TextStream (s : Stream buffer)
| StringStream (s : Stream jsstring).

Record Response : Type :=
  { http_status : Z;
    headers : list (string * jsstring);
    body : ResponseBody }.

(** The [Response] constructor reads [init.status] as an unsigned short,
    throws a [RangeError] for a status outside 200..599 and a [TypeError]
    for a body under a status that allows none. The messages are those
    of the platform. *)
Definition unsigned_short (code : Z) : Z := (code mod 65536)%Z.

Definition null_body_status (code : Z) : bool :=
  ((code =? 101) || (code =? 103) || (code =? 204) || (code =? 205) || (code =? 304))%Z.

Definition RangeError_status : JsError :=
  {| message := js "init[" ++ [34%N] ++ js "status" ++ [34%N]
                ++ js "] must be in the range of 200 to 599, inclusive.";
     status := None |}.

Definition TypeError_status (code : Z) : JsError :=
  {| message := js "Response constructor: Invalid response status code "
                ++ Number_toString (Z.to_N code);
     status := None |}.


Definition NextResponse_json (v : json) (code : Z) : Result Response :=
  let c := unsigned_short code in
  if ((c <? 200) || (599 <? c))%Z then Throw RangeError_status
  else if null_body_status c then Throw (TypeError_status c)
  else Ok {| http_status := c; headers := []; body := JsonBody v |}.

(** [new StreamingTextResponse(stream, { headers })] answers 200. *)
Definition StreamingTextResponse (s : Stream buffer)
    (hs : list (string * jsstring)) : Response :=
  {| http_status := 200; headers := hs; body := TextStream s |}.

Fixpoint header (name : string) (hs : list (string * jsstring)) : option jsstring :=
  match hs with
  | [] => None
  | (k, v) :: rest => if String.eqb k name then Some v else header name rest
  end.

(** [e.status ?? 500]. *)
Definition status_or_500 (e : JsError) : Z :=
  match status e with
  | Some code => code
  | None => 500%Z
  end.

(** The response of the [catch] clause, when the constructor accepts
    the status. *)
Definition error_response (e : JsError) : Response :=
  {| http_status := unsigned_short (status_or_500 e);
     headers := [];
     body := JsonBody (JObj [(js "error", JStr (message e))]) |}.

(** The [catch] clause every handler ends with:
    [NextResponse.json({ error: e.message }, { status: e.status ?? 500 })].
    What it throws leaves the handler. *)
Definition catch_clause (e : JsError) : Result Response :=
  NextResponse_json (JObj [(js "error", JStr (message e))]) (status_or_500 e).

(** Reading [.content] of [messages[i]]; the read throws a [TypeError]
    when the index is outside the array. *)
Definition TypeError_content : JsError :=
  {| message := js "Cannot read properties of undefined (reading 'content')";
     status := None |}.

Definition array_get {A : Type} (l : list A) (i : Z) : option A :=
  if (i <? 0)%Z then None else nth_error l (Z.to_nat i).

Definition content_of (m : option VercelChatMessage) : Result jsstring :=
  match m with
  | Some msg => Ok (content msg)
  | None => Throw TypeError_content
  end.

End Next.

Import Next.

(** ** Runnables: the chain combinators of the orchestration library *)

Module LangChain.

Section Monad.
(** A step runs in the state of the handler (its call log, its pending
    promises) and answers or throws. *)
Variable S : Type.

Definition M (A : Type) : Type := S -> S * Result A.

Definition ret {A : Type} (a : A) : M A := fun s => (s, Ok a).

Definition throw {A : Type} (e : JsError) : M A := fun s => (s, Throw e).

Definition bind {A B : Type} (m : M A) (k : A -> M B) : M B :=
  fun s =>
    match m s with
    | (s', Ok a) => k a s'
    | (s', Throw e) => (s', Throw e)
    end.

Definition lift {A : Type} (r : Result A) : M A := fun s => (s, r).

Definition Runnable (I O : Type) : Type := I -> M O.

(** [a.pipe(b)], and [RunnableSequence.from([a, b])]. *)
Definition pipe {I X O : Type} (a : Runnable I X) (b : Runnable X O) : Runnable I O :=
  fun i => bind (a i) b.

(** A plain function used as a step. *)
Definition lambda {I O : Type} (f : I -> O) : Runnable I O :=
  fun i => ret (f i).

(** [await chain.stream(input)]: the call settles when the first chunk
    of the answer is there, or the answer has ended; a stream that breaks
    before its first chunk makes the call throw. *)
Definition stream {I A : Type} (chain : Runnable I (Stream A)) : Runnable I (Stream A) :=
  fun i =>
    bind (chain i) (fun answer =>
    match chunks answer, failure answer with
    | [], Some e => throw e
    | _, _ => ret answer
    end).
End Monad.

Arguments ret {S A} a.
Arguments throw {S A} e.
Arguments lift {S A} r.
Arguments lambda {S I O} f.

Record Document : Type := { pageContent : jsstring; metadata : json }.

(** The input of a prompt or of a map of steps: named strings. *)
Definition Dict : Type := list (string * jsstring).

Fixpoint lookup (name : string) (d : Dict) : option jsstring :=
  match d with
  | [] => None
  | (k, v) :: rest => if String.eqb k name then Some v else lookup name rest
  end.

(** [(input) => input.name]; an absent property reads [undefined],
    which is [None]. *)
Definition field (name : string) (input : Dict) : option jsstring := lookup name input.

(** A map of steps, [{ k1: step1, k2: step2 }], run as a stream: every
    step runs on the same input and what the steps deliver is collected
    under their keys; a step that delivers nothing, or [undefined], leaves
    its key without a value. The maps of the handlers have one step each
    that leaves the process, so the order in which the steps are started
    does not show. *)
Fixpoint RunnableMap {S : Type} (steps : list (string * Runnable S Dict (option jsstring)))
    : Runnable S Dict Dict :=
  fun input =>
    match steps with
    | [] => ret []
    | (k, step) :: rest =>
        bind (step input) (fun v =>
        bind (RunnableMap rest input) (fun d =>
        ret match v with
            | Some text => (k, text) :: d
            | None => d
            end))
    end.

(** [PromptTemplate.fromTemplate]: text with [{name}] holes. *)
Inductive piece : Type :=
| Lit (text : jsstring)
| Hole (name : string).

Definition PromptTemplate : Type := list piece.

(** A hole without a value; the chains below fill every hole of a
    prompt they reach. *)
Definition missing_value (name : string) : JsError :=
  {| message := js "Missing value for input " ++ js name; status := None |}.

Fixpoint format (t : PromptTemplate) (values : Dict) : Result jsstring :=
  match t with
  | [] => Ok []
  | Lit text :: rest =>
      match format rest values with
      | Ok tail => Ok (text ++ tail)
      | Throw e => Throw e
      end
  | Hole name :: rest =>
      match lookup name values with
      | None => Throw (missing_value name)
      | Some v =>
          match format rest values with
          | Ok tail => Ok (v ++ tail)
          | Throw e => Throw e
          end
      end
  end.

Definition prompt {S : Type} (t : PromptTemplate) : Runnable S Dict jsstring :=
  fun values => lift (format t values).

(** What a step inside a chain makes of a stream of text that it reads
    to its end: the failure that broke it, or the chunks put together; a
    stream without a chunk gives nothing, and the value is [undefined]. *)
Definition aggregate (s : Stream jsstring) : Result (option jsstring) :=
  match failure s with
  | Some e => Throw e
  | None =>
      match chunks s with
      | [] => Ok None
      | _ :: _ => Ok (Some (List.concat (chunks s)))
      end
  end.

End LangChain.

Import LangChain.

(** ** [app/api/chat/retrieval/route.ts] *)

Module Retrieval.

Definition LF : jsstring := [10%N].

(** What leaves the process during one request, in order. *)
Inductive Call : Type :=
| ModelCall (prompt_text : jsstring)
| RetrieverCall (query : jsstring).

(** The chat model and the vector-store retriever. Each sees the calls
    made before it, so two calls with one input may differ. The model
    answers a stream of text deltas. *)
Record Env : Type :=
  { model_ : list Call -> jsstring -> Result (Stream jsstring);
    similaritySearch : list Call -> jsstring -> Result (list Document) }.

(** The state of one request: the call log and [documentPromise]. *)
Record State : Type :=
  { calls : list Call;
    documentPromise : option (list Document) }.

Definition initial : State := {| calls := []; documentPromise := None |}.

Definition log (c : Call) (s : State) : State :=
  {| calls := calls s ++ [c]; documentPromise := documentPromise s |}.

(** Resolving a promise a second time changes nothing. *)
Definition resolveWithDocuments (docs : list Document) (s : State) : State :=
  match documentPromise s with
  | Some _ => s
  | None => {| calls := calls s; documentPromise := Some docs |}
  end.

Definition retriever_queries (s : State) : list jsstring :=
  flat_map (fun c => match c with RetrieverCall q => [q] | ModelCall _ => [] end)
           (calls s).

Definition combineDocumentsFn (docs : list Document) : jsstring :=
  let serializedDocs := map pageContent docs in
  join (LF ++ LF) serializedDocs.

Definition formatVercelMessages (chatHistory : list VercelChatMessage) : jsstring :=
  let formattedDialogueTurns :=
    map (fun message =>
           if jsstring_eqb (role message) (js "user") then
             js "Human: " ++ content message
           else if jsstring_eqb (role message) (js "assistant") then
             js "Assistant: " ++ content message
           else role message ++ js ": " ++ content message)
        chatHistory in
  join LF formattedDialogueTurns.

Definition CONDENSE_QUESTION_TEMPLATE : PromptTemplate :=
  [ Lit (js "Given the following conversation and a follow up question, rephrase the follow up question to be a standalone question, in its original language."
         ++ LF ++ LF ++ js "<chat_history>" ++ LF ++ js "  ");
    Hole "chat_history";
    Lit (LF ++ js "</chat_history>" ++ LF ++ LF ++ js "Follow Up Input: ");
    Hole "question";
    Lit (LF ++ js "Standalone question:") ].

Definition condenseQuestionPrompt : PromptTemplate := CONDENSE_QUESTION_TEMPLATE.

(** The answer prompt; its opening lines are Chinese text, given here by
    their code units (the persona line with the name Dana, the line asking
    for puns, and the line that restricts the answer to the context and
    the chat history). *)
Definition ANSWER_TEMPLATE : PromptTemplate :=
  [ Lit ([20320; 26159; 19968; 21482; 21517; 21483]%N ++ js "Dana"
         ++ [30340; 31934; 21147; 20805; 27803; 30340; 20250; 35828; 35805;
             30340; 23567; 29399; 65292; 20320; 40664; 35748; 35828; 20013;
             25991; 65292; 24517; 39035; 20687; 19968; 21482; 24555; 20048;
             20250; 35828; 35805; 30340; 29399; 19968; 26679; 22238; 31572;
             25152; 26377; 38382; 39064; 12290]%N
         ++ LF ++ [20351; 29992; 22823; 37327; 21452; 20851; 35821; 65281]%N
         ++ LF ++ LF
         ++ [20165; 26681; 25454; 20197; 19979; 19978; 19979; 25991; 21644;
             32842; 22825; 35760; 24405; 22238; 31572; 38382; 39064; 65306]%N
         ++ LF ++ LF ++ js "<context>" ++ LF ++ js "  ");
    Hole "context";
    Lit (LF ++ js "</context>" ++ LF ++ LF ++ js "<chat_history>" ++ LF ++ js "  ");
    Hole "chat_history";
    Lit (LF ++ js "</chat_history>" ++ LF ++ LF ++ js "Question: ");
    Hole "question";
    Lit LF ].

Definition answerPrompt : PromptTemplate := ANSWER_TEMPLATE.

(** The two prompts, filled in. *)
Definition condense_text (chat_history question : jsstring) : Result jsstring :=
  format condenseQuestionPrompt
    [ ("question", question); ("chat_history", chat_history) ].

Definition answer_text (context chat_history question : jsstring) : Result jsstring :=
  format answerPrompt
    [ ("context", context); ("chat_history", chat_history); ("question", question) ].
(** [embeddings.embedQuery(undefined)]: the text of the query is read
    before anything is sent. *)
Definition TypeError_replace : JsError :=
  {| message := js "Cannot read properties of undefined (reading 'replace')";
     status := None |}.

Section Handler.
Variable env : Env.

(** [model]: the call is logged and the oracle answers. *)
Definition model : Runnable State jsstring (Stream jsstring) :=
  fun prompt_text s =>
    (log (ModelCall prompt_text) s, model_ env (calls s) prompt_text).

(** [new StringOutputParser()] inside the chain: the text of the whole
    stream, or nothing when the model delivered no chunk. *)
Definition StringOutputParser : Runnable State (Stream jsstring) (option jsstring) :=
  fun deltas => lift (aggregate deltas).

(** [new BytesOutputParser()]: every delta as octets. *)
Definition BytesOutputParser : Runnable State (Stream jsstring) (Stream buffer) :=
  lambda (stream_map TextEncoder_encode).

Definition standaloneQuestionChain : Runnable State Dict (option jsstring) :=
  pipe (prompt condenseQuestionPrompt) (pipe model StringOutputParser).

(** [vectorstore.asRetriever({ callbacks: [{ handleRetrieverEnd }] })]:
    the callback runs when the search has answered. *)
Definition handleRetrieverEnd (documents : list Document) (s : State) : State :=
  resolveWithDocuments documents s.

(** The retriever embeds the query and searches the store. With
    [undefined] for a query it throws before it calls anything. *)
Definition retriever : Runnable State (option jsstring) (list Document) :=
  fun input s =>
    match input with
    | None => (s, Throw TypeError_replace)
    | Some query =>
        let s' := log (RetrieverCall query) s in
        match similaritySearch env (calls s) query with
        | Ok documents => (handleRetrieverEnd documents s', Ok documents)
        | Throw e => (s', Throw e)
        end
    end.

Definition retrievalChain : Runnable State (option jsstring) jsstring :=
  pipe retriever (lambda combineDocumentsFn).

Definition answerChain : Runnable State Dict (Stream jsstring) :=
  pipe (RunnableMap
          [ ("context", pipe (pipe (lambda (field "question")) retrievalChain)
                             (lambda Some));
            ("chat_history", lambda (field "chat_history"));
            ("question", lambda (field "question")) ])
       (pipe (prompt answerPrompt) model).

Definition conversationalRetrievalQAChain : Runnable State Dict (Stream buffer) :=
  pipe (RunnableMap
          [ ("question", standaloneQuestionChain);
            ("chat_history", lambda (field "chat_history")) ])
       (pipe answerChain BytesOutputParser).

(** The entry of the [x-sources] header for one document. *)
Definition source_entry (doc : Document) : json :=
  JObj [ (js "pageContent", JStr (slice (pageContent doc) 0 50 ++ js "..."));
         (js "metadata", metadata doc) ].

Definition serializedSources (documents : list Document) : jsstring :=
  toString_base64 (Buffer_from (JSON_stringify (JArr (map source_entry documents)))).

(** The body of the [try] block. The answer is [None] when
    [await documentPromise] never settles. *)
Definition try_block (req : NextRequest) : M State (option Response) :=
  bind (lift (json_ req)) (fun body =>
  let messages :=
    match messages body with
    | Some ms => ms
    | None => []
    end in
  let previousMessages := slice messages 0 (-1) in
  bind (lift (content_of (array_get messages (Z.of_nat (List.length messages) - 1))))
    (fun currentMessageContent =>
  bind (stream conversationalRetrievalQAChain
          [ ("question", currentMessageContent);
            ("chat_history", formatVercelMessages previousMessages) ])
    (fun stream s =>
       match documentPromise s with
       | None => (s, Ok None)
       | Some documents =>
           (s, Ok (Some (StreamingTextResponse stream
                [ ("x-message-index",
                   Number_toString (N.of_nat (List.length previousMessages) + 1));
                  ("x-sources", serializedSources documents) ])))
       end))).

(** How the handler settles: with a response, or with what the [catch]
    clause threw. *)
Definition POST (req : NextRequest) : option (Result Response) :=
  match try_block req initial with
  | (_, Ok answer) => option_map (@Ok Response) answer
  | (_, Throw e) => Some (catch_clause e)
  end.

End Handler.

End Retrieval.

(** ** The agent handler, second [POST] of [app/api/chat/retrieval/route.ts] *)

Module Agents.

(** The messages of the orchestration library; a tool call is the JSON
    object the model produced. *)
Inductive BaseMessage : Type :=
| HumanMessage (text : jsstring)
| AIMessage (text : jsstring) (tool_calls : list json)
| SystemMessage (text : jsstring)
| ToolMessage (text : jsstring) (tool_call_id : jsstring)
| ChatMessage (text : jsstring) (speaker : jsstring).

Definition _getType (message : BaseMessage) : jsstring :=
  match message with
  | HumanMessage _ => js "human"
  | AIMessage _ _ => js "ai"
  | SystemMessage _ => js "system"
  | ToolMessage _ _ => js "tool"
  | ChatMessage _ _ => js "generic"
  end.

Definition content_ (message : BaseMessage) : jsstring :=
  match message with
  | HumanMessage c | AIMessage c _ | SystemMessage c
  | ToolMessage c _ | ChatMessage c _ => c
  end.

Definition convertVercelMessageToLangChainMessage (message : VercelChatMessage)
    : BaseMessage :=
  if jsstring_eqb (role message) (js "user") then
    HumanMessage (content message)
  else if jsstring_eqb (role message) (js "assistant") then
    AIMessage (content message) []
  else
    ChatMessage (content message) (role message).

Definition convertLangChainMessageToVercelMessage (message : BaseMessage) : json :=
  if jsstring_eqb (_getType message) (js "human") then
    JObj [ (js "content", JStr (content_ message)); (js "role", JStr (js "user")) ]
  else if jsstring_eqb (_getType message) (js "ai") then
    JObj [ (js "content", JStr (content_ message));
           (js "role", JStr (js "assistant"));
           (js "tool_calls",
            JArr match message with AIMessage _ calls => calls | _ => [] end) ]
  else
    JObj [ (js "content", JStr (content_ message));
           (js "role", JStr (_getType message)) ].

(** One event of [agent.streamEvents]: its kind and [data.chunk], which
    events of the chat model carry. The chunk has the text delta and the
    pieces of tool calls streamed with it. *)
Record AIMessageChunk : Type :=
  { delta : jsstring; tool_call_chunks : list json }.

Record StreamEvent : Type :=
  { event : jsstring; chunk : option AIMessageChunk }.

(** The filter of the handler on the incoming messages. *)
Definition kept (message : VercelChatMessage) : bool :=
  jsstring_eqb (role message) (js "user")
  || jsstring_eqb (role message) (js "assistant").

(** What reaches the agent during one request. *)
Inductive Call : Type :=
| StreamEventsCall (input : list BaseMessage)
| InvokeCall (input : list BaseMessage).

(** The prebuilt agent, built with its model and its tools from an
    environment that holds their keys: an event stream in streaming mode,
    the whole message list in full-trace mode. *)
Record Env : Type :=
  { agent_streamEvents : list BaseMessage -> Result (Stream StreamEvent);
    agent_invoke : list BaseMessage -> Result (list BaseMessage) }.

(** [start(controller)] of [transformStream]: the loop over the events,
    with the chunks it enqueues. [!!text] holds for every text but the
    empty one; an exception in the loop, or the failure that ends the event
    stream, errors the stream, and the stream is closed otherwise. What
    the reader of the stream gets of the chunks is told by [reads]. *)
Fixpoint start (events : list StreamEvent) (ending : option JsError) : Stream buffer :=
  match events with
  | [] => {| chunks := []; failure := ending |}
  | ev :: rest =>
      if jsstring_eqb (event ev) (js "on_chat_model_stream") then
        match chunk ev with
        | None => {| chunks := []; failure := Some TypeError_content |}
        | Some c =>
            match delta c with
            | [] => start rest ending
            | _ :: _ =>
                let later := start rest ending in
                {| chunks := TextEncoder_encode (delta c) :: chunks later;
                   failure := failure later |}
            end
        end
      else start rest ending
  end.

Definition transformStream (eventStream : Stream StreamEvent) : Stream buffer :=
  start (chunks eventStream) (failure eventStream).

Section Handler.
Variable env : Env.

Definition streamEvents : Runnable (list Call) (list BaseMessage) (Stream StreamEvent) :=
  fun input s => (s ++ [StreamEventsCall input], agent_streamEvents env input).

Definition invoke : Runnable (list Call) (list BaseMessage) (list BaseMessage) :=
  fun input s => (s ++ [InvokeCall input], agent_invoke env input).

Definition try_block (req : NextRequest) : M (list Call) Response :=
  bind (lift (json_ req)) (fun body =>
  let returnIntermediateSteps := show_intermediate_steps body in
  let messages :=
    map convertVercelMessageToLangChainMessage
        (filter kept match messages body with Some ms => ms | None => [] end) in
  if negb returnIntermediateSteps then
    bind (streamEvents messages) (fun eventStream =>
    ret (StreamingTextResponse (transformStream eventStream) []))
  else
    bind (invoke messages) (fun result =>
    lift (NextResponse_json
            (JObj [ (js "messages",
                     JArr (map convertLangChainMessageToVercelMessage result)) ])
            200))).

Definition POST (req : NextRequest) : Result Response :=
  match try_block req [] with
  | (_, Ok answer) => Ok answer
  | (_, Throw e) => catch_clause e
  end.

End Handler.

End Agents.

(** ** The plain chat handler *)

Module Chat.

Definition formatMessage (message : VercelChatMessage) : jsstring :=
  role message ++ js ": " ++ content message.

(** The persona line is Chinese text, given by its code units. *)
Definition TEMPLATE : PromptTemplate :=
  [ Lit ([20320; 26159; 20154; 31867; 26368; 21385; 23475; 30340; 31243;
          24207; 21592; 65292; 33086; 27668; 24456; 26292; 36481; 65292;
          31934; 36890; 25152; 26377; 24320; 21457; 35821; 35328; 65292;
          26377; 51; 48; 24180; 30340; 24320; 21457; 32463; 39564; 65292;
          20320; 35762; 30340; 20013; 25991; 65292; 39321; 28207; 33108;
          35843; 46]%N
         ++ Retrieval.LF ++ Retrieval.LF ++ js "Current conversation:" ++ Retrieval.LF);
    Hole "chat_history";
    Lit (Retrieval.LF ++ Retrieval.LF ++ js "User: ");
    Hole "input";
    Lit (Retrieval.LF ++ js "AI:") ].

(** The chat model: a stream of text deltas, or a failure. *)
Record Env : Type := { model_ : jsstring -> Result (Stream jsstring) }.

Section Handler.
Variable env : Env.

Definition model : Runnable (list jsstring) jsstring (Stream jsstring) :=
  fun prompt_text s => (s ++ [prompt_text], model_ env prompt_text).

(** [prompt.pipe(model).pipe(outputParser)], streamed: the parser
    passes the text deltas on, as strings. *)
Definition chain : Runnable (list jsstring) Dict (Stream jsstring) :=
  pipe (prompt TEMPLATE) model.

(** The stream of strings is the body of the response as it is. *)
Definition try_block (req : NextRequest) : M (list jsstring) Response :=
  bind (lift (json_ req)) (fun body =>
  let messages := match messages body with Some ms => ms | None => [] end in
  let formattedPreviousMessages := map formatMessage (slice messages 0 (-1)) in
  bind (lift (content_of (array_get messages (Z.of_nat (List.length messages) - 1))))
    (fun currentMessageContent =>
  bind (stream chain [ ("chat_history", join Retrieval.LF formattedPreviousMessages);
                       ("input", currentMessageContent) ])
    (fun stream =>
  ret {| http_status := 200;
         headers := [ ("Content-Type", js "text/plain; charset=utf-8") ];
         body := StringStream stream |}))).

Definition POST (req : NextRequest) : Result Response :=
  match try_block req [] with
  | (_, Ok answer) => Ok answer
  | (_, Throw e) => catch_clause e
  end.

End Handler.

End Chat.

(** ** [app/api/chat/structured_output/route.ts] *)

Module StructuredOutput.

Definition TEMPLATE : PromptTemplate :=
  [ Lit (js "Extract the requested fields from the input." ++ Retrieval.LF ++ Retrieval.LF
         ++ js "The field " ++ [34%N] ++ js "entity" ++ [34%N]
         ++ js " refers to the first mentioned entity in the input."
         ++ Retrieval.LF ++ Retrieval.LF ++ js "Input:" ++ Retrieval.LF ++ Retrieval.LF);
    Hole "input" ].

(** [model.withStructuredOutput(z.any(), ...)]: a JSON value, or a failure. *)
Record Env : Type := { functionCallingModel_ : jsstring -> Result json }.

Section Handler.
Variable env : Env.

Definition functionCallingModel : Runnable (list jsstring) jsstring json :=
  fun prompt_text s => (s ++ [prompt_text], functionCallingModel_ env prompt_text).

Definition chain : Runnable (list jsstring) Dict json :=
  pipe (prompt TEMPLATE) functionCallingModel.

Definition try_block (req : NextRequest) : M (list jsstring) Response :=
  bind (lift (json_ req)) (fun body =>
  let messages := match messages body with Some ms => ms | None => [] end in
  bind (lift (content_of (array_get messages (Z.of_nat (List.length messages) - 1))))
    (fun currentMessageContent =>
  bind (chain [ ("input", currentMessageContent) ]) (fun result =>
  lift (NextResponse_json result 200)))).

Definition POST (req : NextRequest) : Result Response :=
  match try_block req [] with
  | (_, Ok answer) => Ok answer
  | (_, Throw e) => catch_clause e
  end.

End Handler.

End StructuredOutput.

(** ** The vector extension and the [match_documents] functions *)

Module Pgvector.

Local Open Scope R_scope.

(** An embedding: its coordinates, single-precision numbers. Two
    vectors that meet in an operator have the dimension the column
    declares. *)
Definition vector : Type := list R.

(** A value of a nullable [float8] expression. *)
Inductive float8 : Type :=
| Finite (x : R)
| NaN
| NULL.

(** The order of [ORDER BY ... ASC]: the numbers, then not-a-number,
    then the nulls. *)
Definition float8_leb (a b : float8) : bool :=
  match a, b with
  | Finite x, Finite y => if Rle_dec x y then true else false
  | _, NULL => true
  | NULL, _ => false
  | _, NaN => true
  | NaN, Finite _ => false
  end.

(** [a > t] as a [WHERE] condition with a number on the right: a null
    is not true, and not-a-number is above every number. *)
Definition float8_gtb (a : float8) (t : R) : bool :=
  match a with
  | Finite x => if Rlt_dec t x then true else false
  | NaN => true
  | NULL => false
  end.

(** [LIMIT n]: a null is no limit, a negative number is an error. *)
Definition limit {A : Type} (n : option Z) (l : list A) : option (list A) :=
  match n with
  | None => Some l
  | Some k => if (k <? 0)%Z then None else Some (firstn (Z.to_nat k) l)
  end.

(** A row of the [documents] table. *)
Record Row : Type :=
  { id : Z;
    content : jsstring;
    metadata : option json;
    embedding : option vector }.

(** A row of the answer of [match_documents]. *)
Record Match : Type :=
  { match_id : Z;
    match_content : jsstring;
    match_metadata : option json;
    similarity : float8 }.

Section Operators.
(** [a <=> b], the cosine distance, as the extension computes it in
    floating point: a number, or not-a-number ([None]). *)
Variable cosine : vector -> vector -> option R.

(** [1 - x] on numbers of type [float8], as the database rounds it. *)
Variable minus : R -> R.

Definition cosine_distance (a b : vector) : float8 :=
  match cosine a b with
  | Some x => Finite x
  | None => NaN
  end.

(** The operator on a nullable column. *)
Definition distance (embedding : option vector) (query_embedding : vector) : float8 :=
  match embedding with
  | Some a => cosine_distance a query_embedding
  | None => NULL
  end.

(** [1 - d]. *)
Definition one_minus (d : float8) : float8 :=
  match d with
  | Finite x => Finite (minus x)
  | NaN => NaN
  | NULL => NULL
  end.

Definition select (query_embedding : vector) (documents : Row) : Match :=
  {| match_id := id documents;
     match_content := content documents;
     match_metadata := metadata documents;
     similarity := one_minus (distance (embedding documents) query_embedding) |}.
End Operators.

Section Scans.
Variable A : Type.
Variable key : A -> float8.

(** Two rows in the order of their keys. *)
Definition key_le (x y : A) : Prop := float8_leb (key x) (key y) = true.

(** [ORDER BY key] answered by a scan of the table and a sort: every
    row, in the order of the keys; the order of rows with equal keys is
    open. *)
Definition sorted_scan (rows visited : list A) : Prop :=
  Permutation rows visited /\ Sorted key_le visited.

(** [ORDER BY key] answered by the [ivfflat] index on the embedding
    column: the index holds no row whose key is null, visits the rows of
    the lists it probes only, each once, and delivers them in its own
    order. *)
Definition index_scan (rows visited : list A) : Prop :=
  (exists skipped, Permutation (visited ++ skipped) rows)
  /\ Forall (fun row => key row <> NULL) visited.

(** The planner chooses. *)
Definition scan (rows visited : list A) : Prop :=
  sorted_scan rows visited \/ index_scan rows visited.
End Scans.

End Pgvector.

(** [SUPABASE_SETUP.sql] *)
Module SupabaseSetup.
Import Pgvector.

Section MatchDocuments.
(** [metadata @> filter], the containment test of the database. *)
Variable jsonb_contains : json -> json -> bool.
Variable cosine : vector -> vector -> option R.
Variable minus : R -> R.

Definition where_ (filter_ : option json) (documents : Row) : bool :=
  match filter_ with
  | Some f =>
      match metadata documents with
      | Some m => jsonb_contains m f
      | None => false
      end
  | None => true
  end.

(** The rows [answer] are an answer of the function: a scan delivers
    rows that pass [WHERE], [LIMIT] cuts them and [SELECT] makes the
    answer of each. There is no answer when the statement raises an
    error. *)
Definition match_documents (documents : list Row) (query_embedding : vector)
    (match_count : option Z) (filter_ : option json) (answer : list Match) : Prop :=
  exists visited,
    scan (fun d => distance cosine (embedding d) query_embedding)
         (filter (where_ filter_) documents) visited
    /\ limit match_count (map (select cosine minus query_embedding) visited)
       = Some answer.
End MatchDocuments.

End SupabaseSetup.

(** [SUPABASE_SETUP_grok.sql] *)
Module SupabaseSetupGrok.
Import Pgvector.

Section MatchDocuments.
Variable cosine : vector -> vector -> option R.
Variable minus : R -> R.

Definition where_ (query_embedding : vector) (match_threshold : R) (documents : Row)
    : bool :=
  float8_gtb (one_minus minus (distance cosine (embedding documents) query_embedding))
             match_threshold.

Definition match_documents (documents : list Row) (query_embedding : vector)
    (match_threshold : R) (match_count : option Z) (answer : list Match) : Prop :=
  exists visited,
    scan (fun d => distance cosine (embedding d) query_embedding)
         (filter (where_ query_embedding match_threshold) documents) visited
    /\ limit match_count (map (select cosine minus query_embedding) visited)
       = Some answer.
End MatchDocuments.

End SupabaseSetupGrok.

(** ** The words of the specification, and the runs used as instances *)

Module Spec.

(** "A truncated preview of the chunk text": its first 50 characters
    followed by three dots. *)
Definition preview (text : jsstring) : jsstring := firstn 50 text ++ js "...".

(** "One entry per retrieved document in retrieval order, with the
    fields pageContent and metadata". *)
Definition sources (documents : list Document) : json :=
  JArr (map (fun doc => JObj [ (js "pageContent", JStr (preview (pageContent doc)));
                               (js "metadata", metadata doc) ])
            documents).

(** "The count of prior messages": all messages except the latest. *)
Definition history (messages : list VercelChatMessage) : list VercelChatMessage :=
  removelast messages.

(** The message list of a request body, [body.messages ?? []]. *)
Definition messages_of (b : RequestBody) : list VercelChatMessage :=
  match messages b with
  | Some ms => ms
  | None => []
  end.

End Spec.

(** What a request to the retrieval endpoint is answered with: the
    error response of the [catch] clause, or the streamed answer with its
    two headers, after the condensing call and the search have answered. *)
Inductive answered (env : Retrieval.Env) (req : NextRequest)
    : Result Response -> Prop :=
| answered_error (e : JsError) : answered env req (catch_clause e)
| answered_stream (b : RequestBody) (latest : VercelChatMessage) (p1 : jsstring)
    (deltas : Stream jsstring) (standalone : jsstring)
    (documents : list Document) (answer : Stream buffer) :
    json_ req = Ok b ->
    array_get (Spec.messages_of b)
      (Z.of_nat (List.length (Spec.messages_of b)) - 1) = Some latest ->
    Retrieval.condense_text
      (Retrieval.formatVercelMessages (slice (Spec.messages_of b) 0 (-1)))
      (content latest) = Ok p1 ->
    Retrieval.model_ env [] p1 = Ok deltas ->
    aggregate deltas = Ok (Some standalone) ->
    Retrieval.similaritySearch env [Retrieval.ModelCall p1] standalone = Ok documents ->
    answered env req
      (Ok (StreamingTextResponse answer
             [ ("x-message-index",
                Number_toString
                  (N.of_nat (List.length (slice (Spec.messages_of b) 0 (-1))) + 1));
               ("x-sources", Retrieval.serializedSources documents) ])).

(** "A chat-model stream event with non-empty text content": the text it
    carries, if it is one. *)
Definition text_delta (ev : Agents.StreamEvent) : list jsstring :=
  if jsstring_eqb (Agents.event ev) (js "on_chat_model_stream") then
    match Agents.chunk ev with
    | Some c => match Agents.delta c with [] => [] | _ :: _ => [Agents.delta c] end
    | None => []
    end
  else [].

Module Scenario.

Definition user (text : string) : VercelChatMessage :=
  {| role := js "user"; content := js text |}.

Definition assistant (text : string) : VercelChatMessage :=
  {| role := js "assistant"; content := js text |}.

Definition request (ms : list VercelChatMessage) (steps : bool) : NextRequest :=
  {| json_ := Ok {| messages := Some ms; show_intermediate_steps := steps |} |}.

(** A number, by the text it prints as. *)
Definition num (text : string) : number := {| literal := js text |}.

(** [StringToNumber] on the texts [Number::toString] prints. *)
Definition StringToNumber (text : jsstring) : number := {| literal := text |}.

Definition sky : Document :=
  {| pageContent := js "The sky is blue.";
     metadata := JObj [ (js "loc", JObj [ (js "from", JNum (num "1"));
                                          (js "to", JNum (num "1")) ]) ] |}.

(** A model that repeats the follow-up question when asked to condense
    it and says "Blue!" otherwise, over a store holding one chunk. *)
Definition echo : Retrieval.Env :=
  {| Retrieval.model_ := fun log _ =>
       match log with
       | [] => Ok {| chunks := [js "what color "; js "is the sky?"]; failure := None |}
       | _ => Ok {| chunks := [js "Blue"; js "!"]; failure := None |}
       end;
     Retrieval.similaritySearch := fun _ _ => Ok [sky] |}.

Definition first_question : NextRequest :=
  request [user "what color is the sky?"] false.

Definition unauthorized : JsError :=
  {| message := js "401 Incorrect API key provided"; status := Some 401%Z |}.

(** A retriever whose search is refused. *)
Definition refused : Retrieval.Env :=
  {| Retrieval.model_ := Retrieval.model_ echo;
     Retrieval.similaritySearch := fun _ _ => Throw unauthorized |}.


(** Events of the agent: a text delta of the model, a delta that only
    carries a piece of a tool call, and the start of a tool run. *)
Definition token (text : string) : Agents.StreamEvent :=
  {| Agents.event := js "on_chat_model_stream";
     Agents.chunk := Some {| Agents.delta := js text; Agents.tool_call_chunks := [] |} |}.

Definition tool_call_delta : Agents.StreamEvent :=
  {| Agents.event := js "on_chat_model_stream";
     Agents.chunk :=
       Some {| Agents.delta := [];
               Agents.tool_call_chunks := [ JObj [ (js "name", JStr (js "calculator")) ] ] |} |}.

Definition tool_start : Agents.StreamEvent :=
  {| Agents.event := js "on_tool_start"; Agents.chunk := None |}.

(** An agent whose event stream breaks off after its first delta, as
    when the provider refuses the key once the run has begun. *)
Definition interrupted : Agents.Env :=
  {| Agents.agent_streamEvents := fun _ =>
       Ok {| chunks := [token "Squawk"]; failure := Some unauthorized |};
     Agents.agent_invoke := fun _ => Throw unauthorized |}.



(** A conversation that carries an intermediate step shown to the user
    as a system message. *)
Definition with_step : RequestBody :=
  {| messages :=
       Some [ user "What is 2+2?";
              {| role := js "system"; content := js "calculator: 4" |};
              assistant "Squawk! 4";
              user "And 3+3?" ];
     show_intermediate_steps := true |}.


(** Rows of the [documents] table: one with an embedding, one stored
    without. *)
Definition east : Pgvector.Row :=
  {| Pgvector.id := 1; Pgvector.content := js "The sky is blue.";
     Pgvector.metadata := Some (JObj []);
     Pgvector.embedding := Some [1%R; 0%R] |}.

Definition unembedded : Pgvector.Row :=
  {| Pgvector.id := 3; Pgvector.content := js "draft";
     Pgvector.metadata := None;
     Pgvector.embedding := None |}.

(** A containment test for runs without a filter. *)
Definition no_containment (m f : json) : bool := false.

(** A run of the extension in which every stored embedding is at
    distance 0 from the query, and the subtraction of the reals. *)
Definition nearby (a b : Pgvector.vector) : option R := Some 0%R.

Definition minus (x : R) : R := (1 - x)%R.

End Scenario.

(** ** The chat window of the client

    The component code kept after the SQL script in [SUPABASE_SETUP.sql]:
    [ChatMessages] and, of [ChatWindow], the update of the sources in
    [onResponse] and the branch of [sendMessage] that shows intermediate
    steps. *)

Module Client.

(** A message of the chat hook. *)
Record Message : Type :=
  { id : jsstring;
    role : jsstring;
    content : jsstring;
    tool_calls : option (list json) }.

(** [sourcesForMessages], a record from keys to sources. A key written
    again hides the older entry. *)
Definition Sources : Type := list (jsstring * json).

Fixpoint get (key : jsstring) (record : Sources) : option json :=
  match record with
  | [] => None
  | (k, v) :: rest => if jsstring_eqb k key then Some v else get key rest
  end.

(** [onResponse], from the parsed sources on:
    [if (sources.length && messageIndexHeader !== null)
       setSourcesForMessages({ ...sourcesForMessages, [messageIndexHeader]: sources })]. *)
Definition onResponse (sources : list json) (messageIndexHeader : option jsstring)
    (sourcesForMessages : Sources) : Sources :=
  match sources, messageIndexHeader with
  | _ :: _, Some key => (key, JArr sources) :: sourcesForMessages
  | _, _ => sourcesForMessages
  end.

(** The reading of the [x-sources] header in [onResponse]:
    [sourcesHeader
       ? JSON.parse(Buffer.from(sourcesHeader, "base64").toString("utf8")) : []];
    [None] is the [SyntaxError]. *)
Definition parse_sources (StringToNumber : jsstring -> number)
    (sourcesHeader : option jsstring) : option json :=
  match sourcesHeader with
  | Some ((_ :: _) as text) =>
      JSON_parse StringToNumber (toString_utf8 (Buffer_from_base64 text))
  | _ => Some (JArr [])
  end.

(** What [ChatMessages] renders for one message. *)
Inductive Bubble : Type :=
| IntermediateStep (message : Message)
| ChatMessageBubble (message : Message) (sources : option json).

(** [props.messages.map((m, i) => ...)], from index [i] on. *)
Fixpoint render (total : nat) (sourcesForMessages : Sources) (i : nat)
    (messages : list Message) : list Bubble :=
  match messages with
  | [] => []
  | m :: rest =>
      (if jsstring_eqb (role m) (js "system") then IntermediateStep m
       else
         let sourceKey := Number_toString (N.of_nat (total - 1 - i)) in
         ChatMessageBubble m (get sourceKey sourcesForMessages))
      :: render total sourcesForMessages (S i) rest
  end.

Definition ChatMessages (messages : list Message) (sourcesForMessages : Sources)
    : list Bubble :=
  render (List.length messages) sourcesForMessages 0 messages.

(** The filter of [sendMessage] on the messages of the reply;
    [!!tool_calls?.length] holds for a list that is there and not empty. *)
Definition isToolCallMessage (responseMessage : Message) : bool :=
  (jsstring_eqb (role responseMessage) (js "assistant")
   && match tool_calls responseMessage with
      | Some (_ :: _) => true
      | _ => false
      end)
  || jsstring_eqb (role responseMessage) (js "tool").

(** [JSON.stringify({ action: aiMessage.tool_calls?.[0],
                      observation: toolMessage?.content })]; a property
    whose value is undefined is left out. *)
Definition step_content (aiMessage : Message) (toolMessage : option Message) : jsstring :=
  JSON_stringify
    (JObj (match tool_calls aiMessage with
           | Some (action :: _) => [ (js "action", action) ]
           | _ => []
           end
           ++ match toolMessage with
              | Some observed => [ (js "observation", JStr (content observed)) ]
              | None => []
              end)).

(** The loop [for (let i = 0; i < toolCallMessages.length; i += 2)]: the
    message at [i] with the message at [i + 1], under the id
    [messagesWithUserReply.length + i / 2], here [next]. *)
Fixpoint intermediateStepMessages (next : nat) (toolCallMessages : list Message)
    : list Message :=
  match toolCallMessages with
  | [] => []
  | [aiMessage] =>
      [ {| id := Number_toString (N.of_nat next); role := js "system";
           content := step_content aiMessage None; tool_calls := None |} ]
  | aiMessage :: toolMessage :: rest =>
      {| id := Number_toString (N.of_nat next); role := js "system";
         content := step_content aiMessage (Some toolMessage); tool_calls := None |}
      :: intermediateStepMessages (S next) rest
  end.

(** The reply of the endpoint as [sendMessage] reads it: [response.ok],
    [json.error] and [json.messages]. *)
Record Reply : Type :=
  { ok : bool;
    error : option jsstring;
    reply_messages : list Message }.

Inductive Outcome : Type :=
| Shown (messages : list Message)
| Toast (description : option jsstring)
| Uncaught (e : JsError).

(** [chat.messages.concat({ id: chat.messages.length.toString(),
                             content: chat.input, role: "user" })]. *)
Definition messagesWithUserReply (chat_messages : list Message) (chat_input : jsstring)
    : list Message :=
  chat_messages
  ++ [ {| id := Number_toString (N.of_nat (List.length chat_messages));
          content := chat_input; role := js "user"; tool_calls := None |} ].

(** [sendMessage] with intermediate steps switched on and no request
    under way, from the reply of the endpoint to the last
    [chat.setMessages]. *)
Definition sendMessage (chat_messages : list Message) (chat_input : jsstring)
    (reply : Reply) : Outcome :=
  let messagesWithUserReply := messagesWithUserReply chat_messages chat_input in
  if negb (ok reply) then Toast (error reply)
  else
    let responseMessages := reply_messages reply in
    let toolCallMessages := filter isToolCallMessage responseMessages in
    let newMessages :=
      messagesWithUserReply
      ++ intermediateStepMessages (List.length messagesWithUserReply) toolCallMessages in
    match array_get responseMessages (Z.of_nat (List.length responseMessages) - 1) with
    | None => Uncaught TypeError_content
    | Some final =>
        Shown (newMessages
               ++ [ {| id := Number_toString (N.of_nat (List.length newMessages));
                       content := content final; role := js "assistant";
                       tool_calls := None |} ])
    end.

(** The body of the request of [sendMessage],
    [JSON.stringify({ messages: messagesWithUserReply,
                      show_intermediate_steps: true })], as the handlers
    read it. *)
Definition request_body (messages : list Message) : RequestBody :=
  {| Next.messages :=
       Some (map (fun m => {| Next.role := role m; Next.content := content m |})
                 messages);
     show_intermediate_steps := true |}.

End Client.

(** * Properties *)

(** ** Strings, slices and the header encodings *)

Lemma jsstring_eqb_eq (a b : jsstring) : jsstring_eqb a b = true <-> a = b.
Proof.
  unfold jsstring_eqb. destruct (list_eq_dec N.eq_dec a b); split; congruence.
Qed.

Lemma jsstring_eqb_neq (a b : jsstring) : jsstring_eqb a b = false <-> a <> b.
Proof.
  unfold jsstring_eqb. destruct (list_eq_dec N.eq_dec a b); split; congruence.
Qed.

(** [l.slice(0, -1)] drops the last element and nothing else. *)
Lemma slice_0_minus_1 (A : Type) (l : list A) : slice l 0 (-1) = removelast l.
Proof.
  unfold slice, relative_index. cbn [Z.ltb Z.compare].
  rewrite Z.min_l by lia. cbn [Z.to_nat skipn].
  replace (Z.to_nat (Z.max (Z.max (Z.of_nat (List.length l) + -1) 0 - 0) 0))
    with (List.length l - 1)%nat by lia.
  induction l as [|x l IH]; [reflexivity|].
  destruct l as [|y l]; [reflexivity|].
  cbn [List.length removelast] in *.
  replace (S (S (List.length l)) - 1)%nat with (S (S (List.length l) - 1)) by lia.
  cbn [firstn]. f_equal. exact IH.
Qed.

Lemma length_slice_0_minus_1 (A : Type) (l : list A) :
  List.length (slice l 0 (-1)) = (List.length l - 1)%nat.
Proof.
  rewrite slice_0_minus_1. destruct l as [|x l]; [reflexivity|].
  assert (H : x :: l <> []) by discriminate.
  pose proof (app_removelast_last x H) as E.
  apply (f_equal (@List.length A)) in E. rewrite length_app in E.
  cbn [List.length] in *. lia.
Qed.

(** [text.slice(0, 50)] is the first fifty code units, or all of a
    shorter text. *)
Lemma slice_0_50 (A : Type) (l : list A) : slice l 0 50 = firstn 50 l.
Proof.
  unfold slice, relative_index. cbn [Z.ltb Z.compare].
  rewrite (Z.min_l 0) by lia. cbn [Z.to_nat skipn].
  destruct (Z.le_gt_cases 50 (Z.of_nat (List.length l))) as [H|H].
  - rewrite (Z.min_l 50) by lia. reflexivity.
  - rewrite (Z.min_r 50) by lia.
    replace (Z.to_nat (Z.max (Z.of_nat (List.length l) - 0) 0)) with (List.length l) by lia.
    rewrite firstn_all. symmetry. apply firstn_all2. lia.
Qed.

(** The decimal text of a number reads back as the number. *)
Lemma Number_toString_decimal (n : N) :
  Number_toString n = js (NilZero.string_of_uint (N.to_uint n))
  /\ parse_decimal (NilZero.string_of_uint (N.to_uint n)) = Some n.
Proof.
  split; [reflexivity|]. unfold parse_decimal.
  rewrite NilZero.usu.
  - cbn [option_map]. f_equal. apply DecimalN.Unsigned.of_to.
  - destruct n as [|p]; [discriminate|].
    apply DecimalPos.Unsigned.to_uint_nonnil.
Qed.

(** *** The base64 text of a buffer reads back as the buffer *)

Lemma base64_char_lt (d : N) : (d < 64)%N -> base64_digit (base64_char d) = Some d.
Proof.
  intro H. destruct d as [|p]; [reflexivity|].
  do 6 (destruct p as [p|p|]; try reflexivity); exfalso; lia.
Qed.

Ltac euclid :=
  repeat match goal with
    | |- context [(?a / ?b)%N] =>
        let q := fresh "q" in let E := fresh "E" in
        pose proof (N.div_mod a b ltac:(discriminate)) as E;
        pose proof (N.mod_lt a b ltac:(discriminate));
        set (q := (a / b)%N) in *; clearbody q
    | |- context [(?a mod ?b)%N] =>
        let r := fresh "r" in
        pose proof (N.div_mod a b ltac:(discriminate));
        pose proof (N.mod_lt a b ltac:(discriminate));
        set (r := (a mod b)%N) in *; clearbody r
    end.

Lemma sextets_lt (x y z : N) :
  (x < 256 -> y < 256 -> z < 256 ->
   x / 4 < 64 /\ (x mod 4) * 16 + y / 16 < 64
   /\ (y mod 16) * 4 + z / 64 < 64 /\ z mod 64 < 64)%N.
Proof. intros. euclid. lia. Qed.

Lemma octets_of_sextets (x y z : N) :
  (x < 256 -> y < 256 -> z < 256 ->
   x / 4 * 4 + ((x mod 4) * 16 + y / 16) / 16 = x
   /\ (((x mod 4) * 16 + y / 16) mod 16) * 16 + ((y mod 16) * 4 + z / 64) / 4 = y
   /\ (((y mod 16) * 4 + z / 64) mod 4) * 64 + z mod 64 = z)%N.
Proof.
  intros Hx Hy Hz.
  pose proof (N.div_mod x 4 ltac:(discriminate)).
  pose proof (N.mod_lt x 4 ltac:(discriminate)).
  pose proof (N.div_mod y 16 ltac:(discriminate)).
  pose proof (N.mod_lt y 16 ltac:(discriminate)).
  pose proof (N.div_mod z 64 ltac:(discriminate)).
  pose proof (N.mod_lt z 64 ltac:(discriminate)).
  set (a := (x / 4)%N) in *. set (b := (x mod 4)%N) in *.
  set (c := (y / 16)%N) in *. set (d := (y mod 16)%N) in *.
  set (e := (z / 64)%N) in *. set (f := (z mod 64)%N) in *.
  clearbody a b c d e f.
  assert (Hc : (c < 16)%N) by lia. assert (He : (e < 4)%N) by lia.
  replace ((b * 16 + c) / 16)%N with b
    by (apply (N.div_unique _ 16 b c); lia).
  replace ((b * 16 + c) mod 16)%N with c
    by (apply (N.mod_unique _ 16 b c); lia).
  replace ((d * 4 + e) / 4)%N with d
    by (apply (N.div_unique _ 4 d e); lia).
  replace ((d * 4 + e) mod 4)%N with e
    by (apply (N.mod_unique _ 4 d e); lia).
  lia.
Qed.

Lemma base64_roundtrip_aux (n : nat) : forall b : buffer,
  (List.length b <= n)%nat -> Forall (fun x => (x < 256)%N) b ->
  Buffer_from_base64 (toString_base64 b) = b.
Proof.
  induction n as [n IH] using lt_wf_ind. intros b Hlen Hb.
  destruct b as [|x [|y [|z rest]]]; [reflexivity| | |].
  - inversion Hb as [|? ? Hx _]; subst.
    destruct (sextets_lt Hx Hx Hx) as (H1 & _).
    assert (H2 : ((x mod 4) * 16 < 64)%N)
      by (pose proof (N.mod_lt x 4 ltac:(discriminate)); lia).
    cbn [toString_base64 Buffer_from_base64].
    rewrite (base64_char_lt H1), (base64_char_lt H2).
    change (base64_digit 61) with (@None N). cbv iota.
    f_equal.
    destruct (@octets_of_sextets x 0 0 Hx ltac:(lia) ltac:(lia)) as (E & _).
    change (0 / 16)%N with 0%N in E. rewrite N.add_0_r in E. exact E.
  - inversion Hb as [|? ? Hx Hb']; subst. inversion Hb' as [|? ? Hy _]; subst.
    destruct (sextets_lt Hx Hy Hy) as (H1 & H2 & _).
    assert (H3 : ((y mod 16) * 4 < 64)%N)
      by (pose proof (N.mod_lt y 16 ltac:(discriminate)); lia).
    cbn [toString_base64 Buffer_from_base64].
    rewrite (base64_char_lt H1), (base64_char_lt H2), (base64_char_lt H3).
    change (base64_digit 61) with (@None N). cbv iota.
    destruct (@octets_of_sextets x y 0 Hx Hy ltac:(lia)) as (E1 & E2 & _).
    change (0 / 64)%N with 0%N in E2. rewrite N.add_0_r in E2.
    rewrite E1, E2. reflexivity.
  - inversion Hb as [|? ? Hx Hb']; subst. inversion Hb' as [|? ? Hy Hb'']; subst.
    inversion Hb'' as [|? ? Hz Hrest]; subst.
    destruct (sextets_lt Hx Hy Hz) as (H1 & H2 & H3 & H4).
    cbn [toString_base64 Buffer_from_base64 app].
    rewrite (base64_char_lt H1), (base64_char_lt H2), (base64_char_lt H3),
      (base64_char_lt H4).
    destruct (octets_of_sextets Hx Hy Hz) as (E1 & E2 & E3).
    rewrite E1, E2, E3. cbn [app]. do 3 f_equal.
    cbn [List.length] in Hlen.
    apply (IH (List.length rest)); [lia|lia|exact Hrest].
Qed.

Lemma base64_roundtrip (b : buffer) :
  Forall (fun x => (x < 256)%N) b -> Buffer_from_base64 (toString_base64 b) = b.
Proof. intro H. exact (base64_roundtrip_aux (le_n _) H). Qed.

(** *** The JSON text is made of code units, and its UTF-8 form of octets *)

Lemma js_code_units (s : string) : code_units (js s).
Proof.
  unfold code_units, js. apply Forall_forall. intros c Hc.
  apply in_map_iff in Hc as (a & <- & _).
  pose proof (N_ascii_bounded a). lia.
Qed.

Lemma code_units_app (a b : jsstring) :
  code_units a -> code_units b -> code_units (a ++ b).
Proof. unfold code_units. intros. apply Forall_app. auto. Qed.

Lemma hex_digit_lt (d : N) : (d < 16)%N -> (hex_digit d < 65536)%N.
Proof. unfold hex_digit. destruct (d <? 10)%N; lia. Qed.

Lemma land_15_lt (c : N) : (N.land c 15 < 16)%N.
Proof.
  change 15%N with (N.ones 4). rewrite N.land_ones.
  apply N.mod_lt. discriminate.
Qed.

Lemma unicode_escape_code_units (c : N) :
  (c < 65536)%N -> code_units (unicode_escape c).
Proof.
  intro Hc. unfold unicode_escape, code_units.
  assert (H12 : (N.shiftr c 12 < 16)%N).
  { rewrite N.shiftr_div_pow2. change (2 ^ 12)%N with 4096%N.
    apply N.Div0.div_lt_upper_bound. lia. }
  repeat constructor; try lia; apply hex_digit_lt;
    [exact H12|apply land_15_lt..].
Qed.

Lemma quote_unit_code_units (c : N) : (c < 65536)%N -> code_units (quote_unit c).
Proof.
  intro Hc. unfold quote_unit.
  repeat match goal with
    | |- context [if ?b then _ else _] => destruct b
    end;
    try apply js_code_units; try (apply unicode_escape_code_units; exact Hc);
    unfold code_units; repeat constructor; lia.
Qed.

Lemma quote_units_code_units_aux (n : nat) : forall s : jsstring,
  (List.length s <= n)%nat -> code_units s -> code_units (quote_units s).
Proof.
  induction n as [n IH] using lt_wf_ind. intros s Hlen Hs.
  destruct s as [|c rest]; [constructor|].
  inversion Hs as [|? ? Hc Hrest]; subst. cbn [List.length] in Hlen.
  assert (IHrest : code_units (quote_units rest))
    by (apply (IH (List.length rest)); [lia|lia|exact Hrest]).
  cbn [quote_units].
  destruct (is_high_surrogate c).
  - destruct rest as [|d rest'].
    + apply unicode_escape_code_units. exact Hc.
    + inversion Hrest as [|? ? Hd Hrest']; subst. cbn [List.length] in Hlen.
      destruct (is_low_surrogate d).
      * constructor; [exact Hc|]. constructor; [exact Hd|].
        apply (IH (List.length rest')); [lia|lia|exact Hrest'].
      * apply code_units_app; [apply unicode_escape_code_units; exact Hc|exact IHrest].
  - destruct (is_low_surrogate c).
    + apply code_units_app; [apply unicode_escape_code_units; exact Hc|exact IHrest].
    + apply code_units_app; [apply quote_unit_code_units; exact Hc|exact IHrest].
Qed.

Lemma QuoteJSONString_code_units (s : jsstring) :
  code_units s -> code_units (QuoteJSONString s).
Proof.
  intro Hs. unfold QuoteJSONString.
  apply code_units_app; [repeat constructor; lia|].
  apply code_units_app; [|repeat constructor; lia].
  exact (quote_units_code_units_aux (le_n _) Hs).
Qed.

Lemma join_code_units (sep : jsstring) (parts : list jsstring) :
  code_units sep -> Forall code_units parts -> code_units (join sep parts).
Proof.
  intros Hsep. induction 1 as [|p rest Hp Hrest IH]; [constructor|].
  cbn [join]. destruct rest as [|q rest]; [exact Hp|].
  apply code_units_app; [exact Hp|]. apply code_units_app; [exact Hsep|exact IH].
Qed.

Lemma JSON_number_code_units (text : jsstring) :
  JSON_number text = true -> code_units text.
Proof.
  unfold JSON_number. intro H. apply andb_true_iff in H as (H & _).
  rewrite forallb_forall in H. apply Forall_forall. intros c Hc.
  specialize (H c Hc). unfold number_char, is_digit in H.
  rewrite !orb_true_iff, andb_true_iff, !N.eqb_eq, !N.leb_le in H. lia.
Qed.

Lemma JSON_stringify_code_units : forall v : json,
  well_formed v -> code_units (JSON_stringify v).
Proof.
  fix IH 1. intros [| [|] | x | s | items | props] Hv; cbn [JSON_stringify].
  - apply js_code_units.
  - apply js_code_units.
  - apply js_code_units.
  - cbn [well_formed] in Hv. rewrite Hv. apply JSON_number_code_units. exact Hv.
  - apply QuoteJSONString_code_units. exact Hv.
  - apply code_units_app; [apply js_code_units|].
    apply code_units_app; [|apply js_code_units].
    apply join_code_units; [apply js_code_units|].
    cbn [well_formed] in Hv. revert Hv.
    induction items as [|x items IHitems]; intro Hv; [constructor|].
    destruct Hv as (Hx & Hitems). cbn [map]. constructor.
    + apply IH. exact Hx.
    + apply IHitems. exact Hitems.
  - apply code_units_app; [apply js_code_units|].
    apply code_units_app; [|apply js_code_units].
    apply join_code_units; [apply js_code_units|].
    cbn [well_formed] in Hv. destruct Hv as (_ & Hv). revert Hv.
    induction props as [|kv props IHprops]; intro Hv; [constructor|].
    destruct Hv as (Hk & Hx & Hprops). cbn [map]. constructor.
    + apply code_units_app; [apply QuoteJSONString_code_units; exact Hk|].
      apply code_units_app; [apply js_code_units|]. apply IH. exact Hx.
    + apply IHprops. exact Hprops.
Qed.

Lemma shiftr_lt (c : N) (k b : N) :
  (c < b * 2 ^ k)%N -> (N.shiftr c k < b)%N.
Proof.
  intro H. rewrite N.shiftr_div_pow2.
  apply N.Div0.div_lt_upper_bound. lia.
Qed.

Lemma land_63_lt (c : N) : (N.land c 63 < 64)%N.
Proof.
  change 63%N with (N.ones 6). rewrite N.land_ones.
  apply N.mod_lt. discriminate.
Qed.

Lemma utf8_of_code_point_octets (cp : N) :
  (cp < 1114112)%N -> Forall (fun x => (x < 256)%N) (utf8_of_code_point cp).
Proof.
  intro Hcp. unfold utf8_of_code_point.
  destruct (N.ltb_spec cp 128); [repeat constructor; lia|].
  destruct (N.ltb_spec cp 2048).
  { pose proof (@shiftr_lt cp 6 32 ltac:(cbn; lia)). pose proof (land_63_lt cp).
    repeat constructor; lia. }
  destruct (N.ltb_spec cp 65536).
  { pose proof (@shiftr_lt cp 12 16 ltac:(cbn; lia)).
    pose proof (land_63_lt cp). pose proof (land_63_lt (N.shiftr cp 6)).
    repeat constructor; lia. }
  pose proof (@shiftr_lt cp 18 5 ltac:(cbn; lia)).
  pose proof (land_63_lt cp). pose proof (land_63_lt (N.shiftr cp 6)).
  pose proof (land_63_lt (N.shiftr cp 12)).
  repeat constructor; lia.
Qed.

Lemma surrogate_pair_lt (c d : N) :
  is_high_surrogate c = true -> is_low_surrogate d = true ->
  (65536 + N.shiftl (c - 55296) 10 + (d - 56320) < 1114112)%N.
Proof.
  unfold is_high_surrogate, is_low_surrogate.
  rewrite !andb_true_iff, !N.leb_le. intros (H1 & H2) (H3 & H4).
  rewrite N.shiftl_mul_pow2. change (2 ^ 10)%N with 1024%N. lia.
Qed.

Lemma Buffer_from_octets_aux (n : nat) : forall s : jsstring,
  (List.length s <= n)%nat -> code_units s ->
  Forall (fun x => (x < 256)%N) (Buffer_from s).
Proof.
  induction n as [n IH] using lt_wf_ind. intros s Hlen Hs.
  destruct s as [|c rest]; [constructor|].
  inversion Hs as [|? ? Hc Hrest]; subst. cbn [List.length] in Hlen.
  assert (IHrest : Forall (fun x => (x < 256)%N) (Buffer_from rest))
    by (apply (IH (List.length rest)); [lia|lia|exact Hrest]).
  assert (Hfffd : Forall (fun x => (x < 256)%N) (utf8_of_code_point 65533))
    by (apply utf8_of_code_point_octets; lia).
  cbn [Buffer_from].
  destruct (is_high_surrogate c) eqn:Hhigh.
  - destruct rest as [|d rest'].
    + exact Hfffd.
    + inversion Hrest as [|? ? Hd Hrest']; subst. cbn [List.length] in Hlen.
      destruct (is_low_surrogate d) eqn:Hlow.
      * apply Forall_app. split.
        -- apply utf8_of_code_point_octets. apply surrogate_pair_lt; assumption.
        -- apply (IH (List.length rest')); [lia|lia|exact Hrest'].
      * apply Forall_app. split; [exact Hfffd|exact IHrest].
  - destruct (is_low_surrogate c).
    + apply Forall_app. split; [exact Hfffd|exact IHrest].
    + apply Forall_app. split; [|exact IHrest].
      apply utf8_of_code_point_octets. lia.
Qed.

(** The reader of a header gets the octets the handler encoded. *)
Lemma base64_of_text_reads_back (text : jsstring) :
  code_units text ->
  Buffer_from_base64 (toString_base64 (Buffer_from text)) = Buffer_from text.
Proof.
  intro H. apply base64_roundtrip. exact (Buffer_from_octets_aux (le_n _) H).
Qed.

(** ** The retrieval chain, step by step *)

Lemma condense_text_ok (h q : jsstring) :
  exists text, Retrieval.condense_text h q = Ok text.
Proof. eexists. reflexivity. Qed.

Lemma answer_text_ok (c h q : jsstring) :
  exists text, Retrieval.answer_text c h q = Ok text.
Proof. eexists. reflexivity. Qed.

(** One run of the whole chain: the condensing call, the search with the
    condensed question, then the answering call, each able to throw; a
    condensing call without a chunk leaves the question undefined. *)
Lemma chain_run (env : Retrieval.Env) (q h : jsstring) (s : Retrieval.State) :
  exists p1, Retrieval.condense_text h q = Ok p1 /\
  Retrieval.conversationalRetrievalQAChain env
    [ ("question", q); ("chat_history", h) ] s =
  let s1 := Retrieval.log (Retrieval.ModelCall p1) s in
  match Retrieval.model_ env (Retrieval.calls s) p1 with
  | Throw e => (s1, Throw e)
  | Ok deltas =>
      match aggregate deltas with
      | Throw e => (s1, Throw e)
      | Ok None => (s1, Throw Retrieval.TypeError_replace)
      | Ok (Some standalone) =>
          let s2 := Retrieval.log (Retrieval.RetrieverCall standalone) s1 in
          match Retrieval.similaritySearch env (Retrieval.calls s1) standalone with
          | Throw e => (s2, Throw e)
          | Ok documents =>
              let s3 := Retrieval.handleRetrieverEnd documents s2 in
              match Retrieval.answer_text (Retrieval.combineDocumentsFn documents)
                      h standalone with
              | Throw e => (s3, Throw e)
              | Ok p2 =>
                  let s4 := Retrieval.log (Retrieval.ModelCall p2) s3 in
                  match Retrieval.model_ env (Retrieval.calls s3) p2 with
                  | Throw e => (s4, Throw e)
                  | Ok answer => (s4, Ok (stream_map TextEncoder_encode answer))
                  end
              end
          end
      end
  end.
Proof.
  eexists. split; [reflexivity|].
  unfold Retrieval.conversationalRetrievalQAChain, Retrieval.answerChain,
    Retrieval.standaloneQuestionChain, Retrieval.retrievalChain,
    Retrieval.BytesOutputParser, Retrieval.StringOutputParser,
    Retrieval.retriever, Retrieval.model, pipe, prompt, lambda, lift, ret.
  cbn -[Retrieval.combineDocumentsFn Retrieval.LF js aggregate].
  unfold bind.
  destruct (Retrieval.model_ env (Retrieval.calls s) _) as [deltas|e]; [|reflexivity].
  destruct (aggregate deltas) as [[standalone|]|e]; [| reflexivity | reflexivity].
  cbn -[Retrieval.combineDocumentsFn Retrieval.LF js].
  destruct (Retrieval.similaritySearch env _ _) as [documents|e]; [|reflexivity].
  cbn -[Retrieval.combineDocumentsFn Retrieval.LF js].
  destruct (Retrieval.model_ env _ _) as [answer|e]; reflexivity.
Qed.

Lemma standalone_run (env : Retrieval.Env) (q h : jsstring) (s : Retrieval.State) :
  exists p1, Retrieval.condense_text h q = Ok p1 /\
  Retrieval.standaloneQuestionChain env [ ("question", q); ("chat_history", h) ] s =
  (Retrieval.log (Retrieval.ModelCall p1) s,
   match Retrieval.model_ env (Retrieval.calls s) p1 with
   | Throw e => Throw e
   | Ok deltas => aggregate deltas
   end).
Proof.
  eexists. split; [reflexivity|].
  unfold Retrieval.standaloneQuestionChain, Retrieval.StringOutputParser,
    Retrieval.model, pipe, prompt, lift.
  cbn -[Retrieval.LF js aggregate]. unfold bind.
  destruct (Retrieval.model_ env (Retrieval.calls s) _) as [deltas|e]; reflexivity.
Qed.

(** The [try] block on a request with a latest message, call by call. *)
Lemma try_block_run (env : Retrieval.Env) (req : NextRequest) (b : RequestBody)
    (latest : VercelChatMessage) :
  json_ req = Ok b ->
  array_get (Spec.messages_of b) (Z.of_nat (List.length (Spec.messages_of b)) - 1)
    = Some latest ->
  let history := Retrieval.formatVercelMessages (slice (Spec.messages_of b) 0 (-1)) in
  exists p1, Retrieval.condense_text history (content latest) = Ok p1 /\
  Retrieval.try_block env req Retrieval.initial =
  let s1 := {| Retrieval.calls := [Retrieval.ModelCall p1];
               Retrieval.documentPromise := None |} in
  match Retrieval.model_ env [] p1 with
  | Throw e => (s1, Throw e)
  | Ok deltas =>
      match aggregate deltas with
      | Throw e => (s1, Throw e)
      | Ok None => (s1, Throw Retrieval.TypeError_replace)
      | Ok (Some standalone) =>
          let log2 := [Retrieval.ModelCall p1; Retrieval.RetrieverCall standalone] in
          match Retrieval.similaritySearch env [Retrieval.ModelCall p1] standalone with
          | Throw e =>
              ({| Retrieval.calls := log2; Retrieval.documentPromise := None |}, Throw e)
          | Ok documents =>
              match Retrieval.answer_text (Retrieval.combineDocumentsFn documents)
                      history standalone with
              | Throw e =>
                  ({| Retrieval.calls := log2;
                      Retrieval.documentPromise := Some documents |}, Throw e)
              | Ok p2 =>
                  let s3 := {| Retrieval.calls := log2 ++ [Retrieval.ModelCall p2];
                               Retrieval.documentPromise := Some documents |} in
                  match Retrieval.model_ env log2 p2 with
                  | Throw e => (s3, Throw e)
                  | Ok answer =>
                      match chunks answer, failure answer with
                      | [], Some e => (s3, Throw e)
                      | _, _ =>
                          (s3, Ok (Some (StreamingTextResponse
                                (stream_map TextEncoder_encode answer)
                                [ ("x-message-index",
                                   Number_toString
                                     (N.of_nat (List.length
                                        (slice (Spec.messages_of b) 0 (-1))) + 1));
                                  ("x-sources",
                                   Retrieval.serializedSources documents) ])))
                      end
                  end
              end
          end
      end
  end.
Proof.
  intros Hreq Hlast history.
  unfold Retrieval.try_block. unfold bind at 1. unfold lift at 1. rewrite Hreq.
  fold (Spec.messages_of b). unfold bind at 1. unfold lift at 1.
  rewrite Hlast. cbn [content_of]. unfold bind at 1. unfold stream. unfold bind at 1.
  destruct (chain_run env (content latest) history Retrieval.initial)
    as (p1 & Hp1 & Hrun).
  exists p1. split; [exact Hp1|].
  fold history. rewrite Hrun. cbn zeta. cbn [Retrieval.calls Retrieval.initial].
  destruct (Retrieval.model_ env [] p1) as [deltas|e]; [|reflexivity].
  destruct (aggregate deltas) as [[standalone|]|e]; [| reflexivity | reflexivity].
  cbn [Retrieval.calls Retrieval.log Retrieval.initial app].
  destruct (Retrieval.similaritySearch env _ standalone) as [documents|e];
    [|reflexivity].
  destruct (answer_text_ok (Retrieval.combineDocumentsFn documents) history standalone)
    as (p2 & ->).
  destruct (Retrieval.model_ env _ p2) as [answer|e]; [|reflexivity].
  cbn [chunks failure stream_map].
  destruct (chunks answer) as [|c cs]; cbn [map].
  - destruct (failure answer); reflexivity.
  - reflexivity.
Qed.

(** The handler always settles: [await documentPromise] settles whenever
    the chain has handed over its stream. *)
Lemma POST_answers (env : Retrieval.Env) (req : NextRequest) :
  exists r, Retrieval.POST env req = Some r /\ answered env req r.
Proof.
  unfold Retrieval.POST.
  destruct (json_ req) as [b|e] eqn:Hreq.
  2:{ unfold Retrieval.try_block, bind, lift. rewrite Hreq.
      eexists; split; [reflexivity|]. apply answered_error. }
  destruct (array_get (Spec.messages_of b)
              (Z.of_nat (List.length (Spec.messages_of b)) - 1)) as [latest|] eqn:Hlast.
  2:{ unfold Retrieval.try_block, bind, lift. rewrite Hreq.
      fold (Spec.messages_of b). rewrite Hlast. cbn [content_of].
      eexists; split; [reflexivity|]. apply answered_error. }
  destruct (try_block_run env req Hreq Hlast) as (p1 & Hp1 & ->). cbn zeta.
  destruct (Retrieval.model_ env [] p1) as [deltas|e] eqn:Hm.
  2:{ eexists; split; [reflexivity|]. apply answered_error. }
  destruct (aggregate deltas) as [[standalone|]|e] eqn:Hd.
  2,3: (eexists; split; [reflexivity|]; apply answered_error).
  destruct (Retrieval.similaritySearch env _ standalone) as [documents|e] eqn:Hs.
  2:{ eexists; split; [reflexivity|]. apply answered_error. }
  destruct (Retrieval.answer_text _ _ _) as [p2|e].
  2:{ eexists; split; [reflexivity|]. apply answered_error. }
  destruct (Retrieval.model_ env _ p2) as [answer|e] eqn:Ha.
  2:{ eexists; split; [reflexivity|]. apply answered_error. }
  destruct (chunks answer) as [|c cs].
  - destruct (failure answer) as [e|].
    + eexists; split; [reflexivity|]. apply answered_error.
    + eexists; split; [reflexivity|]. eapply answered_stream; eauto.
  - eexists; split; [reflexivity|]. eapply answered_stream; eauto.
Qed.

Lemma catch_clause_body (e : JsError) (r : Response) :
  catch_clause e = Ok r -> exists v, body r = JsonBody v.
Proof.
  unfold catch_clause, NextResponse_json. cbn zeta.
  destruct (_ || _)%bool; [discriminate|].
  destruct (null_body_status _); [discriminate|].
  intros [= <-]. eexists. reflexivity.
Qed.

Lemma answered_text_stream (env : Retrieval.Env) (req : NextRequest) (r : Response)
    (st : Stream buffer) :
  Retrieval.POST env req = Some (Ok r) -> body r = TextStream st ->
  exists b p1 standalone documents,
    json_ req = Ok b
    /\ Spec.messages_of b <> []
    /\ Retrieval.similaritySearch env [Retrieval.ModelCall p1] standalone = Ok documents
    /\ headers r =
         [ ("x-message-index",
            Number_toString
              (N.of_nat (List.length (slice (Spec.messages_of b) 0 (-1))) + 1));
           ("x-sources", Retrieval.serializedSources documents) ].
Proof.
  intros HP Hbody.
  destruct (POST_answers env req) as (r' & HP' & Hans).
  rewrite HP in HP'. injection HP' as <-.
  inversion Hans as [e He|b latest p1 deltas standalone documents answer
                          Hreq Hlast _ _ _ Hsearch Hr].
  - apply catch_clause_body in He as (v & Hv). congruence.
  - exists b, p1, standalone, documents. repeat split; try assumption.
    intro E. rewrite E in Hlast. discriminate Hlast.
Qed.

(** The entries of the header are well formed when the documents are. *)
Lemma preview_code_units (text : jsstring) :
  code_units text -> code_units (slice text 0 50 ++ js "...").
Proof.
  intro H. rewrite slice_0_50. apply code_units_app; [|apply js_code_units].
  unfold code_units in *. rewrite Forall_forall in *. intros c Hc. apply H.
  rewrite <- (firstn_skipn 50 text). apply in_or_app. left. exact Hc.
Qed.

Lemma source_entry_well_formed (doc : Document) :
  code_units (pageContent doc) -> well_formed (metadata doc) ->
  well_formed (Retrieval.source_entry doc).
Proof.
  intros Hp Hm. unfold Retrieval.source_entry. cbn [well_formed fst snd].
  split; [reflexivity|].
  split; [apply js_code_units|]. split; [apply preview_code_units; exact Hp|].
  split; [apply js_code_units|]. split; [exact Hm|exact I].
Qed.

Lemma sources_well_formed (documents : list Document) :
  Forall (fun doc => code_units (pageContent doc) /\ well_formed (metadata doc))
         documents ->
  well_formed (JArr (map Retrieval.source_entry documents)).
Proof.
  intro H. cbn [well_formed].
  induction H as [|doc rest (Hp & Hm) _ IH]; cbn [map]; [exact I|].
  split; [|exact IH]. apply source_entry_well_formed; assumption.
Qed.

(** ** The claims on the retrieval endpoint *)

(** C1, corrected. The [x-message-index] header of a streamed answer is
    the decimal text of the number of prior messages plus one, which is
    the number of messages in the request and so the position the answer
    takes in the conversation. *)
Theorem x_message_index_is_history_length_plus_one
    (env : Retrieval.Env) (b : RequestBody) (r : Response) (st : Stream buffer) :
  Retrieval.POST env {| json_ := Ok b |} = Some (Ok r) ->
  body r = TextStream st ->
  let index := (N.of_nat (List.length (Spec.history (Spec.messages_of b))) + 1)%N in
  header "x-message-index" (headers r) = Some (Number_toString index)
  /\ index = N.of_nat (List.length (Spec.messages_of b))
  /\ exists digits, Number_toString index = js digits /\ parse_decimal digits = Some index.
Proof.
  intros HP Hbody index.
  destruct (answered_text_stream _ _ HP Hbody) as (b' & p1 & q & docs & Hb & Hne & _ & Hh).
  cbn [json_] in Hb. injection Hb as <-.
  rewrite Hh. cbn [header String.eqb Ascii.eqb Bool.eqb].
  subst index. unfold Spec.history. rewrite <- slice_0_minus_1.
  split; [reflexivity|]. split.
  - rewrite length_slice_0_minus_1.
    destruct (Spec.messages_of b) as [|m ms]; [congruence|]. cbn [List.length]. lia.
  - eexists. exact (Number_toString_decimal _).
Qed.

Lemma x_message_index_is_history_length_plus_one_witness :
  exists r st,
    Retrieval.POST Scenario.echo Scenario.first_question = Some (Ok r)
    /\ body r = TextStream st
    /\ header "x-message-index" (headers r) = Some (js "1").
Proof.
  eexists. eexists. split; [reflexivity|]. split; [reflexivity|].
  exact (proj1 (@x_message_index_is_history_length_plus_one Scenario.echo
                  {| messages := Some [Scenario.user "what color is the sky?"];
                     show_intermediate_steps := false |}
                  _ _ eq_refl eq_refl)).
Defined.

(** C1 as stated fails: on a first question the history is empty, and the
    header reads 1, not 0. *)
Lemma x_message_index_is_not_history_length :
  let ms := [Scenario.user "what color is the sky?"] in
  exists r st,
    Retrieval.POST Scenario.echo (Scenario.request ms false) = Some (Ok r)
    /\ body r = TextStream st
    /\ List.length (Spec.history ms) = 0%nat
    /\ header "x-message-index" (headers r) = Some (js "1")
    /\ header "x-message-index" (headers r)
       <> Some (Number_toString (N.of_nat (List.length (Spec.history ms)))).
Proof.
  eexists. eexists. split; [reflexivity|]. split; [reflexivity|].
  split; [reflexivity|]. split; [reflexivity|]. discriminate.
Qed.

(** C7. A request whose message list is empty, or missing, is answered
    with the JSON error body of the [catch] clause and status 500: reading
    the latest message throws before any call is made. *)
Theorem empty_messages_answer_an_error (env : Retrieval.Env) (steps : bool) :
  let answer :=
    {| http_status := 500;
       headers := [];
       body := JsonBody (JObj [ (js "error", JStr (message TypeError_content)) ]) |} in
  Retrieval.POST env
    {| json_ := Ok {| messages := Some []; show_intermediate_steps := steps |} |}
    = Some (Ok answer)
  /\ Retrieval.POST env
       {| json_ := Ok {| messages := None; show_intermediate_steps := steps |} |}
     = Some (Ok answer)
  /\ ~ (200 <= http_status answer < 300)%Z
  /\ Retrieval.calls
       (fst (Retrieval.try_block env
               {| json_ := Ok {| messages := Some []; show_intermediate_steps := steps |} |}
               Retrieval.initial))
     = [].
Proof.
  cbn zeta. split; [reflexivity|]. split; [reflexivity|].
  split; [cbn [http_status]; lia|reflexivity].
Qed.

(** C5. When the condensing chain answers the question it was given, the
    one query the store receives during the run of the whole chain is
    that question. When the condensing chain answers nothing, the model
    having delivered no chunk, the question is undefined: the retriever
    throws, the store receives no query and the chain fails. *)
Theorem retriever_receives_the_unchanged_question
    (env : Retrieval.Env) (question chat_history : jsstring)
    (s s1 : Retrieval.State) (standalone : option jsstring) :
  let input := [ ("question", question); ("chat_history", chat_history) ] in
  Retrieval.standaloneQuestionChain env input s = (s1, Ok standalone) ->
  (standalone = Some question ->
   Retrieval.retriever_queries
     (fst (Retrieval.conversationalRetrievalQAChain env input s))
   = Retrieval.retriever_queries s ++ [question])
  /\ (standalone = None ->
      Retrieval.retriever_queries
        (fst (Retrieval.conversationalRetrievalQAChain env input s))
      = Retrieval.retriever_queries s
      /\ exists e, snd (Retrieval.conversationalRetrievalQAChain env input s) = Throw e).
Proof.
  intros input Hrun. subst input.
  destruct (standalone_run env question chat_history s) as (p1 & Hp1 & Hs).
  rewrite Hs in Hrun. injection Hrun as _ Hout.
  destruct (chain_run env question chat_history s) as (p1' & Hp1' & ->).
  rewrite Hp1 in Hp1'. injection Hp1' as <-. cbn zeta.
  destruct (Retrieval.model_ env (Retrieval.calls s) p1) as [deltas|e]; [|discriminate].
  rewrite Hout.
  assert (Hlog : forall s0,
    Retrieval.retriever_queries (Retrieval.log (Retrieval.ModelCall p1) s0)
    = Retrieval.retriever_queries s0).
  { intro s0. unfold Retrieval.retriever_queries. cbn [Retrieval.calls Retrieval.log].
    rewrite flat_map_app. cbn [flat_map app]. apply app_nil_r. }
  assert (Hq : forall s0 docs,
    Retrieval.retriever_queries
      (Retrieval.handleRetrieverEnd docs
         (Retrieval.log (Retrieval.RetrieverCall question)
            (Retrieval.log (Retrieval.ModelCall p1) s0)))
    = Retrieval.retriever_queries s0 ++ [question]).
  { intros s0 docs. unfold Retrieval.handleRetrieverEnd, Retrieval.resolveWithDocuments,
      Retrieval.retriever_queries.
    destruct (Retrieval.documentPromise _); cbn [Retrieval.calls Retrieval.log];
      rewrite !flat_map_app; cbn [flat_map app]; rewrite !app_nil_r; reflexivity. }
  split.
  - intros ->.
    destruct (Retrieval.similaritySearch env _ question) as [documents|e].
    + destruct (answer_text_ok (Retrieval.combineDocumentsFn documents) chat_history
                  question) as (p2 & ->).
      destruct (Retrieval.model_ env _ p2) as [answer|e]; cbn [fst].
      * unfold Retrieval.retriever_queries at 1. cbn [Retrieval.calls Retrieval.log].
        rewrite flat_map_app. cbn [flat_map app]. rewrite app_nil_r. apply Hq.
      * unfold Retrieval.retriever_queries at 1. cbn [Retrieval.calls Retrieval.log].
        rewrite flat_map_app. cbn [flat_map app]. rewrite app_nil_r. apply Hq.
    + cbn [fst]. unfold Retrieval.retriever_queries. cbn [Retrieval.calls Retrieval.log].
      rewrite !flat_map_app. cbn [flat_map app]. rewrite !app_nil_r. reflexivity.
  - intros ->. cbn [fst snd]. split; [apply Hlog|]. eexists. reflexivity.
Qed.

Lemma retriever_receives_the_unchanged_question_witness :
  Retrieval.retriever_queries
    (fst (Retrieval.conversationalRetrievalQAChain Scenario.echo
            [ ("question", js "what color is the sky?"); ("chat_history", []) ]
            Retrieval.initial))
  = [js "what color is the sky?"].
Proof.
  exact (proj1 (@retriever_receives_the_unchanged_question Scenario.echo
                  (js "what color is the sky?") [] Retrieval.initial _ _ eq_refl)
           eq_refl).
Defined.

(** ** The claims on the agent endpoint *)

Lemma start_chunks_from_text (events : list Agents.StreamEvent) (ending : option JsError)
    (out : buffer) :
  In out (chunks (Agents.start events ending)) ->
  exists ev c,
    In ev events /\ Agents.event ev = js "on_chat_model_stream"
    /\ Agents.chunk ev = Some c /\ Agents.delta c <> []
    /\ out = TextEncoder_encode (Agents.delta c).
Proof.
  induction events as [|ev rest IH]; cbn [Agents.start chunks]; [contradiction|].
  destruct (jsstring_eqb (Agents.event ev) _) eqn:Hev.
  - destruct (Agents.chunk ev) as [c|] eqn:Hc; [|contradiction].
    destruct (Agents.delta c) as [|u text] eqn:Hd.
    + intro H. destruct (IH H) as (ev' & c' & Hin & rest').
      exists ev', c'. split; [right; exact Hin|exact rest'].
    + cbn [chunks]. intros [<-|H].
      * exists ev, c. apply jsstring_eqb_eq in Hev. rewrite Hd.
        repeat split; try assumption; [left; reflexivity|discriminate].
      * destruct (IH H) as (ev' & c' & Hin & rest').
        exists ev', c'. split; [right; exact Hin|exact rest'].
  - intro H. destruct (IH H) as (ev' & c' & Hin & rest').
    exists ev', c'. split; [right; exact Hin|exact rest'].
Qed.

Lemma start_skips (before after : list Agents.StreamEvent) (ev : Agents.StreamEvent)
    (ending : option JsError) :
  text_delta ev = [] ->
  (Agents.event ev = js "on_chat_model_stream" -> Agents.chunk ev <> None) ->
  Agents.start (before ++ ev :: after) ending = Agents.start (before ++ after) ending.
Proof.
  intros Hnone Hchunk. induction before as [|x before IH].
  - cbn [app Agents.start]. unfold text_delta in Hnone.
    destruct (jsstring_eqb (Agents.event ev) _) eqn:Hev; [|reflexivity].
    apply jsstring_eqb_eq in Hev. specialize (Hchunk Hev).
    destruct (Agents.chunk ev) as [c|]; [|congruence].
    destruct (Agents.delta c); [reflexivity|discriminate].
  - cbn [app Agents.start]. rewrite IH. reflexivity.
Qed.

Lemma start_exact (events : list Agents.StreamEvent) (ending : option JsError) :
  Forall (fun ev => Agents.event ev = js "on_chat_model_stream" -> Agents.chunk ev <> None)
         events ->
  Agents.start events ending
  = {| chunks := map TextEncoder_encode (flat_map text_delta events);
       failure := ending |}.
Proof.
  induction 1 as [|ev rest Hev _ IH]; [reflexivity|].
  cbn [Agents.start flat_map]. unfold text_delta at 1.
  destruct (jsstring_eqb (Agents.event ev) _) eqn:E.
  - apply jsstring_eqb_eq in E. specialize (Hev E).
    destruct (Agents.chunk ev) as [c|]; [|congruence].
    destruct (Agents.delta c); rewrite IH; reflexivity.
  - rewrite IH. reflexivity.
Qed.

(** C9. In streaming mode the body of the answer carries text deltas of
    the chat model and nothing else: every chunk sent is the encoded,
    non-empty text of an [on_chat_model_stream] event; an event of another
    kind, or a delta without text (one that only carries a tool call), can
    be taken out of the event sequence without changing what is sent; and
    when every model event has its chunk, what is sent is exactly the
    texts of those deltas, in order. *)
Theorem streaming_forwards_only_text_deltas
    (events : list Agents.StreamEvent) (ending : option JsError) :
  (forall out,
      In out (chunks (Agents.transformStream {| chunks := events; failure := ending |})) ->
      exists ev c,
        In ev events /\ Agents.event ev = js "on_chat_model_stream"
        /\ Agents.chunk ev = Some c /\ Agents.delta c <> []
        /\ out = TextEncoder_encode (Agents.delta c))
  /\ (forall before ev after,
        events = before ++ ev :: after ->
        Agents.event ev <> js "on_chat_model_stream"
        \/ (exists c, Agents.chunk ev = Some c /\ Agents.delta c = []) ->
        Agents.transformStream {| chunks := events; failure := ending |}
        = Agents.transformStream {| chunks := before ++ after; failure := ending |})
  /\ (Forall (fun ev => Agents.event ev = js "on_chat_model_stream" ->
                        Agents.chunk ev <> None) events ->
      Agents.transformStream {| chunks := events; failure := ending |}
      = {| chunks := map TextEncoder_encode (flat_map text_delta events);
           failure := ending |}).
Proof.
  unfold Agents.transformStream. cbn [chunks failure].
  split; [|split].
  - intros out. apply start_chunks_from_text.
  - intros before ev after -> H. apply start_skips.
    + unfold text_delta. destruct H as [H|(c & Hc & Hd)].
      * apply jsstring_eqb_neq in H. rewrite H. reflexivity.
      * rewrite Hc, Hd. destruct (jsstring_eqb _ _); reflexivity.
    + destruct H as [H|(c & Hc & _)]; [congruence|]. rewrite Hc. discriminate.
  - apply start_exact.
Qed.

Lemma streaming_forwards_only_text_deltas_witness :
  Agents.transformStream
    {| chunks := [Scenario.tool_call_delta; Scenario.tool_start; Scenario.token "4"];
       failure := None |}
  = Agents.transformStream
      {| chunks := [Scenario.tool_start; Scenario.token "4"]; failure := None |}
  /\ Agents.transformStream
       {| chunks := [Scenario.tool_call_delta; Scenario.tool_start; Scenario.token "4"];
          failure := None |}
     = {| chunks := [TextEncoder_encode (js "4")]; failure := None |}.
Proof.
  pose proof (@streaming_forwards_only_text_deltas
                [Scenario.tool_call_delta; Scenario.tool_start; Scenario.token "4"] None)
    as (_ & Hskip & Hexact).
  split.
  - apply (Hskip [] Scenario.tool_call_delta [Scenario.tool_start; Scenario.token "4"]
             eq_refl).
    right. eexists. split; reflexivity.
  - apply Hexact. repeat constructor; cbn; intros; discriminate.
Defined.

(** The streamed answer of the handler is that stream. *)
Lemma agent_streaming_answer (env : Agents.Env) (b : RequestBody)
    (eventStream : Stream Agents.StreamEvent) :
  show_intermediate_steps b = false ->
  Agents.agent_streamEvents env
    (map Agents.convertVercelMessageToLangChainMessage
       (filter Agents.kept (Spec.messages_of b))) = Ok eventStream ->
  Agents.POST env {| json_ := Ok b |}
  = Ok (StreamingTextResponse (Agents.transformStream eventStream) []).
Proof.
  intros Hmode Hrun. unfold Agents.POST, Agents.try_block, bind, lift, ret,
    Agents.streamEvents. cbn [json_]. rewrite Hmode. cbn [negb].
  fold (Spec.messages_of b). rewrite Hrun. reflexivity.
Qed.

(** C10. The agent is called once, with the converted messages of role
    [user] or [assistant] and no other, in streaming mode and in
    full-trace mode alike; messages of any other role never reach it, and
    the answer does not depend on them. *)
Theorem agent_receives_only_user_and_assistant_messages
    (env : Agents.Env) (b : RequestBody) :
  let passed :=
    map Agents.convertVercelMessageToLangChainMessage
        (filter Agents.kept (Spec.messages_of b)) in
  fst (Agents.try_block env {| json_ := Ok b |} [])
  = [ if show_intermediate_steps b then Agents.InvokeCall passed
      else Agents.StreamEventsCall passed ]
  /\ (forall m, In m passed <->
        exists v, In v (Spec.messages_of b)
                  /\ (role v = js "user" \/ role v = js "assistant")
                  /\ m = Agents.convertVercelMessageToLangChainMessage v)
  /\ Forall (fun m => exists text, m = Agents.HumanMessage text
                                   \/ m = Agents.AIMessage text []) passed
  /\ Agents.POST env {| json_ := Ok b |}
     = Agents.POST env
         {| json_ := Ok {| messages := Some (filter Agents.kept (Spec.messages_of b));
                           show_intermediate_steps := show_intermediate_steps b |} |}.
Proof.
  intro passed.
  assert (Hkept : forall v, Agents.kept v = true <->
                            role v = js "user" \/ role v = js "assistant").
  { intro v. unfold Agents.kept. rewrite orb_true_iff, !jsstring_eqb_eq. reflexivity. }
  split; [|split; [|split]].
  - unfold Agents.try_block, bind, lift, ret, Agents.streamEvents, Agents.invoke.
    cbn [json_]. fold (Spec.messages_of b). fold passed.
    destruct (show_intermediate_steps b); cbn [negb].
    + destruct (Agents.agent_invoke env passed); reflexivity.
    + destruct (Agents.agent_streamEvents env passed); reflexivity.
  - intro m. subst passed. rewrite in_map_iff. split.
    + intros (v & <- & Hin). apply filter_In in Hin as (Hin & Hk).
      exists v. rewrite <- Hkept. auto.
    + intros (v & Hin & Hrole & ->). exists v. split; [reflexivity|].
      apply filter_In. rewrite Hkept. auto.
  - subst passed. apply Forall_forall. intros m Hm.
    apply in_map_iff in Hm as (v & <- & Hin). apply filter_In in Hin as (_ & Hk).
    unfold Agents.kept in Hk. unfold Agents.convertVercelMessageToLangChainMessage.
    exists (content v).
    destruct (jsstring_eqb (role v) (js "user")); [left; reflexivity|].
    cbn [orb] in Hk. rewrite Hk. right; reflexivity.
  - unfold Agents.POST, Agents.try_block, bind, lift. cbn [json_ messages
      show_intermediate_steps]. fold (Spec.messages_of b).
    assert (E : filter Agents.kept (filter Agents.kept (Spec.messages_of b))
                = filter Agents.kept (Spec.messages_of b)).
    { induction (Spec.messages_of b) as [|v ms IH]; [reflexivity|].
      cbn [filter]. destruct (Agents.kept v) eqn:Hk; [|exact IH].
      cbn [filter]. rewrite Hk, IH. reflexivity. }
    rewrite E. reflexivity.
Qed.

Lemma agent_receives_only_user_and_assistant_messages_witness :
  fst (Agents.try_block Scenario.interrupted {| json_ := Ok Scenario.with_step |} [])
  = [ Agents.InvokeCall
        [ Agents.HumanMessage (js "What is 2+2?");
          Agents.AIMessage (js "Squawk! 4") [];
          Agents.HumanMessage (js "And 3+3?") ] ].
Proof.
  exact (proj1 (@agent_receives_only_user_and_assistant_messages
                  Scenario.interrupted Scenario.with_step)).
Defined.

(** ** The [catch] clause of the four handlers *)










(** A failure whose status the platform refuses leaves the handler: the
    store answering 204, or a status outside 200..599, makes the [catch]
    clause itself throw. *)
Example refused_status_leaves_the_handler :
  let no_content := {| message := js "No Content"; status := Some 204%Z |} in
  let out_of_range := {| message := js "Timeout"; status := Some 0%Z |} in
  let store (e : JsError) :=
    {| Retrieval.model_ := Retrieval.model_ Scenario.echo;
       Retrieval.similaritySearch := fun _ _ => Throw e |} in
  Retrieval.POST (store no_content) Scenario.first_question
    = Some (Throw (TypeError_status 204))
  /\ Retrieval.POST (store out_of_range) Scenario.first_question
     = Some (Throw RangeError_status).
Proof. split; reflexivity. Qed.
(** ** The header read back: UTF-8 *)

Lemma shiftr_6 (c : N) : N.shiftr c 6 = (c / 64)%N.
Proof. rewrite N.shiftr_div_pow2. reflexivity. Qed.

Lemma shiftr_12 (c : N) : N.shiftr c 12 = (c / 64 / 64)%N.
Proof. rewrite N.shiftr_div_pow2, N.Div0.div_div. reflexivity. Qed.

Lemma shiftr_18 (c : N) : N.shiftr c 18 = (c / 64 / 64 / 64)%N.
Proof. rewrite N.shiftr_div_pow2, !N.Div0.div_div. reflexivity. Qed.

Lemma land_63 (c : N) : N.land c 63 = (c mod 64)%N.
Proof. change 63%N with (N.ones 6). rewrite N.land_ones. reflexivity. Qed.

(** A comparison that the hypotheses decide is replaced by its value. *)
Ltac decide_test :=
  match goal with
  | |- context [(?a <? ?b)%N] =>
      first [ rewrite (proj2 (N.ltb_lt a b)) by lia
            | rewrite (proj2 (N.ltb_ge a b)) by lia ]
  | |- context [(?a <=? ?b)%N] =>
      first [ rewrite (proj2 (N.leb_le a b)) by lia
            | rewrite (proj2 (N.leb_gt a b)) by lia ]
  | |- context [(?a =? ?b)%N] =>
      first [ rewrite (proj2 (N.eqb_eq a b)) by lia
            | rewrite (proj2 (N.eqb_neq a b)) by lia ]
  end.

Ltac decide_tests := repeat (decide_test; cbn [andb orb negb]).

(** The octets of a code point that is no surrogate decode to it. *)
Lemma utf8_decode_code_point (cp : N) (rest : buffer) :
  (cp < 1114112)%N -> (cp < 55296 \/ 57343 < cp)%N ->
  utf8_decode (utf8_of_code_point cp ++ rest) = cp :: utf8_decode rest.
Proof.
  intros Hmax Hscalar. unfold utf8_of_code_point.
  rewrite ?shiftr_6, ?shiftr_12, ?shiftr_18, ?land_63.
  pose proof (N.div_mod cp 64 ltac:(discriminate)) as E1.
  pose proof (N.mod_lt cp 64 ltac:(discriminate)) as B1.
  set (q1 := (cp / 64)%N) in *. set (r1 := (cp mod 64)%N) in *.
  pose proof (N.div_mod q1 64 ltac:(discriminate)) as E2.
  pose proof (N.mod_lt q1 64 ltac:(discriminate)) as B2.
  set (q2 := (q1 / 64)%N) in *. set (r2 := (q1 mod 64)%N) in *.
  pose proof (N.div_mod q2 64 ltac:(discriminate)) as E3.
  pose proof (N.mod_lt q2 64 ltac:(discriminate)) as B3.
  set (q3 := (q2 / 64)%N) in *. set (r3 := (q2 mod 64)%N) in *.
  clearbody q1 r1 q2 r2 q3 r3.
  destruct (N.ltb_spec cp 128) as [H1|H1].
  { cbn [app utf8_decode]. decide_tests. reflexivity. }
  destruct (N.ltb_spec cp 2048) as [H2|H2].
  { cbn [app utf8_decode]. unfold continuation. decide_tests. f_equal. lia. }
  destruct (N.ltb_spec cp 65536) as [H3|H3].
  { cbn [app utf8_decode]. unfold continuation.
    destruct (N.eqb_spec (224 + q2) 224) as [Ha|Ha];
      destruct (N.eqb_spec (224 + q2) 237) as [Hb|Hb];
      decide_tests; f_equal; lia. }
  cbn [app utf8_decode]. unfold continuation.
  destruct (N.eqb_spec (240 + q3) 240) as [Ha|Ha];
    destruct (N.eqb_spec (240 + q3) 244) as [Hb|Hb];
    decide_tests; f_equal; lia.
Qed.

Lemma utf16_of_pair (c d : N) :
  is_high_surrogate c = true -> is_low_surrogate d = true ->
  utf16_of_code_point (65536 + N.shiftl (c - 55296) 10 + (d - 56320)) = [c; d].
Proof.
  unfold is_high_surrogate, is_low_surrogate.
  rewrite !andb_true_iff, !N.leb_le. intros (H1 & H2) (H3 & H4).
  rewrite N.shiftl_mul_pow2. change (2 ^ 10)%N with 1024%N.
  unfold utf16_of_code_point.
  rewrite (proj2 (N.ltb_ge _ _)) by lia.
  replace (65536 + (c - 55296) * 1024 + (d - 56320) - 65536)%N
    with ((c - 55296) * 1024 + (d - 56320))%N by lia.
  set (x := ((c - 55296) * 1024 + (d - 56320))%N).
  assert (Ediv : (x / 1024 = c - 55296)%N)
    by (symmetry; apply (N.div_unique x 1024 (c - 55296) (d - 56320)); subst x; lia).
  assert (Emod : (x mod 1024 = d - 56320)%N)
    by (symmetry; apply (N.mod_unique x 1024 (c - 55296) (d - 56320)); subst x; lia).
  rewrite Ediv, Emod. f_equal; [lia|]. f_equal. lia.
Qed.

Lemma not_surrogate (c : N) :
  is_high_surrogate c = false -> is_low_surrogate c = false ->
  (c < 55296 \/ 57343 < c)%N.
Proof.
  unfold is_high_surrogate, is_low_surrogate.
  rewrite !andb_false_iff, !N.leb_gt. lia.
Qed.

Lemma toString_utf8_code_point (cp : N) (rest : buffer) :
  (cp < 1114112)%N -> (cp < 55296 \/ 57343 < cp)%N ->
  toString_utf8 (utf8_of_code_point cp ++ rest)
  = utf16_of_code_point cp ++ toString_utf8 rest.
Proof.
  intros H1 H2. unfold toString_utf8. rewrite utf8_decode_code_point by assumption.
  reflexivity.
Qed.

(** The UTF-8 octets of a string without a lone surrogate decode to the
    string. *)
Lemma utf8_roundtrip_aux (n : nat) : forall s : jsstring,
  (List.length s <= n)%nat -> code_units s -> paired s = true ->
  toString_utf8 (Buffer_from s) = s.
Proof.
  induction n as [n IH] using lt_wf_ind. intros s Hlen Hs Hp.
  destruct s as [|c rest]; [reflexivity|].
  inversion Hs as [|? ? Hc Hrest]; subst. cbn [List.length] in Hlen.
  cbn [Buffer_from paired] in *.
  destruct (is_high_surrogate c) eqn:Hhigh.
  - destruct rest as [|d rest']; [discriminate Hp|].
    apply andb_true_iff in Hp as (Hlow & Hp). rewrite Hlow.
    inversion Hrest as [|? ? Hd Hrest']; subst. cbn [List.length] in Hlen.
    rewrite toString_utf8_code_point.
    + rewrite (utf16_of_pair c d Hhigh Hlow). cbn [app]. do 2 f_equal.
      apply (IH (List.length rest')); [lia|lia|exact Hrest'|exact Hp].
    + apply surrogate_pair_lt; assumption.
    + right. pose proof (N.le_0_l (N.shiftl (c - 55296) 10)). lia.
  - apply andb_true_iff in Hp as (Hlow & Hp). apply negb_true_iff in Hlow.
    rewrite Hlow.
    rewrite toString_utf8_code_point;
      [|lia|apply not_surrogate; assumption].
    unfold utf16_of_code_point. rewrite (proj2 (N.ltb_lt _ _)) by lia.
    cbn [app]. f_equal.
    apply (IH (List.length rest)); [lia|lia|exact Hrest|exact Hp].
Qed.

Lemma utf8_roundtrip (s : jsstring) :
  code_units s -> paired s = true -> toString_utf8 (Buffer_from s) = s.
Proof. intros. apply (utf8_roundtrip_aux (le_n _)); assumption. Qed.

(** *** The JSON text has no lone surrogate *)

Lemma paired_app_aux (n : nat) (b : jsstring) : forall a : jsstring,
  (List.length a <= n)%nat ->
  paired a = true -> paired b = true -> paired (a ++ b) = true.
Proof.
  induction n as [n IH] using lt_wf_ind. intros a Hlen Ha Hb.
  destruct a as [|c rest]; [exact Hb|]. cbn [app paired List.length] in *.
  destruct (is_high_surrogate c).
  - destruct rest as [|d rest']; [discriminate Ha|]. cbn [app List.length] in *.
    apply andb_true_iff in Ha as (Hd & Hrest). rewrite Hd. cbn [andb].
    apply (IH (List.length rest')); [lia|lia|exact Hrest|exact Hb].
  - apply andb_true_iff in Ha as (Hc & Hrest). rewrite Hc. cbn [andb].
    apply (IH (List.length rest)); [lia|lia|exact Hrest|exact Hb].
Qed.

Lemma paired_app (a b : jsstring) :
  paired a = true -> paired b = true -> paired (a ++ b) = true.
Proof. apply (@paired_app_aux (List.length a) b a (le_n _)). Qed.

Lemma paired_ascii (s : jsstring) :
  Forall (fun c => (c < 55296)%N) s -> paired s = true.
Proof.
  induction 1 as [|c rest Hc _ IH]; [reflexivity|]. cbn [paired].
  unfold is_high_surrogate, is_low_surrogate.
  rewrite (proj2 (N.leb_gt 55296 c)) by lia.
  rewrite (proj2 (N.leb_gt 56320 c)) by lia. exact IH.
Qed.

Lemma js_below_surrogates (s : string) : Forall (fun c => (c < 55296)%N) (js s).
Proof.
  unfold js. apply Forall_forall. intros c Hc.
  apply in_map_iff in Hc as (a & <- & _).
  pose proof (N_ascii_bounded a). lia.
Qed.

Lemma paired_js (s : string) : paired (js s) = true.
Proof. apply paired_ascii. apply js_below_surrogates. Qed.

Lemma hex_digit_ascii (d : N) : (d < 16)%N -> (hex_digit d < 128)%N.
Proof. unfold hex_digit. destruct (d <? 10)%N; lia. Qed.

Lemma land_15_mod (c : N) : N.land c 15 = (c mod 16)%N.
Proof. change 15%N with (N.ones 4). rewrite N.land_ones. reflexivity. Qed.

Lemma paired_unicode_escape (c : N) : (c < 65536)%N -> paired (unicode_escape c) = true.
Proof.
  intro Hc. apply paired_ascii. unfold unicode_escape.
  assert (H12 : (N.shiftr c 12 < 16)%N).
  { rewrite N.shiftr_div_pow2. change (2 ^ 12)%N with 4096%N.
    apply N.Div0.div_lt_upper_bound. lia. }
  pose proof (hex_digit_ascii H12).
  pose proof (hex_digit_ascii (land_15_lt (N.shiftr c 8))).
  pose proof (hex_digit_ascii (land_15_lt (N.shiftr c 4))).
  pose proof (hex_digit_ascii (land_15_lt c)).
  repeat constructor; lia.
Qed.

Lemma paired_quote_unit (c : N) :
  (c < 65536)%N -> is_high_surrogate c = false -> is_low_surrogate c = false ->
  paired (quote_unit c) = true.
Proof.
  intros Hc Hhigh Hlow. unfold quote_unit.
  repeat match goal with
    | |- context [if ?b then _ else _] => destruct b
    end;
    try apply paired_js; try (apply paired_unicode_escape; exact Hc);
    try reflexivity.
  cbn [paired]. rewrite Hhigh, Hlow. reflexivity.
Qed.

Lemma paired_quote_units_aux (n : nat) : forall s : jsstring,
  (List.length s <= n)%nat -> code_units s -> paired (quote_units s) = true.
Proof.
  induction n as [n IH] using lt_wf_ind. intros s Hlen Hs.
  destruct s as [|c rest]; [reflexivity|].
  inversion Hs as [|? ? Hc Hrest]; subst. cbn [List.length] in Hlen.
  assert (IHrest : paired (quote_units rest) = true)
    by (apply (IH (List.length rest)); [lia|lia|exact Hrest]).
  cbn [quote_units].
  destruct (is_high_surrogate c) eqn:Hhigh.
  - destruct rest as [|d rest'].
    + apply paired_unicode_escape. exact Hc.
    + inversion Hrest as [|? ? Hd Hrest']; subst. cbn [List.length] in Hlen.
      destruct (is_low_surrogate d) eqn:Hlow.
      * cbn [paired]. rewrite Hhigh, Hlow. cbn [andb].
        apply (IH (List.length rest')); [lia|lia|exact Hrest'].
      * apply paired_app; [apply paired_unicode_escape; exact Hc|exact IHrest].
  - destruct (is_low_surrogate c) eqn:Hlow.
    + apply paired_app; [apply paired_unicode_escape; exact Hc|exact IHrest].
    + apply paired_app; [apply paired_quote_unit; assumption|exact IHrest].
Qed.

Lemma paired_QuoteJSONString (s : jsstring) :
  code_units s -> paired (QuoteJSONString s) = true.
Proof.
  intro Hs. unfold QuoteJSONString.
  apply paired_app; [reflexivity|].
  apply paired_app; [|reflexivity].
  exact (paired_quote_units_aux (le_n _) Hs).
Qed.

Lemma paired_join (sep : jsstring) (parts : list jsstring) :
  paired sep = true -> Forall (fun p => paired p = true) parts ->
  paired (join sep parts) = true.
Proof.
  intros Hsep. induction 1 as [|p rest Hp Hrest IH]; [reflexivity|].
  cbn [join]. destruct rest as [|q rest]; [exact Hp|].
  apply paired_app; [exact Hp|]. apply paired_app; [exact Hsep|exact IH].
Qed.

Lemma paired_number (text : jsstring) : JSON_number text = true -> paired text = true.
Proof.
  unfold JSON_number. intro H. apply andb_true_iff in H as (H & _).
  apply paired_ascii. rewrite forallb_forall in H. apply Forall_forall. intros c Hc.
  specialize (H c Hc). unfold number_char, is_digit in H.
  rewrite !orb_true_iff, andb_true_iff, !N.eqb_eq, !N.leb_le in H. lia.
Qed.

Lemma paired_JSON_stringify : forall v : json,
  well_formed v -> paired (JSON_stringify v) = true.
Proof.
  fix IH 1. intros [| [|] | x | s | items | props] Hv; cbn [JSON_stringify].
  - apply paired_js.
  - apply paired_js.
  - apply paired_js.
  - cbn [well_formed] in Hv. rewrite Hv. apply paired_number. exact Hv.
  - apply paired_QuoteJSONString. exact Hv.
  - apply paired_app; [apply paired_js|].
    apply paired_app; [|apply paired_js].
    apply paired_join; [apply paired_js|].
    cbn [well_formed] in Hv. revert Hv.
    induction items as [|x items IHitems]; intro Hv; [constructor|].
    destruct Hv as (Hx & Hitems). cbn [map]. constructor.
    + apply IH. exact Hx.
    + apply IHitems. exact Hitems.
  - apply paired_app; [apply paired_js|].
    apply paired_app; [|apply paired_js].
    apply paired_join; [apply paired_js|].
    cbn [well_formed] in Hv. destruct Hv as (_ & Hv). revert Hv.
    induction props as [|kv props IHprops]; intro Hv; [constructor|].
    destruct Hv as (Hk & Hx & Hprops). cbn [map]. constructor.
    + apply paired_app; [apply paired_QuoteJSONString; exact Hk|].
      apply paired_app; [apply paired_js|]. apply IH. exact Hx.
    + apply IHprops. exact Hprops.
Qed.

(** The text the client gets from the header is the JSON text the
    handler wrote. *)
Lemma header_text_reads_back (v : json) :
  well_formed v ->
  toString_utf8 (Buffer_from_base64 (toString_base64 (Buffer_from (JSON_stringify v))))
  = JSON_stringify v.
Proof.
  intro Hv. rewrite base64_of_text_reads_back by (apply JSON_stringify_code_units; exact Hv).
  apply utf8_roundtrip; [apply JSON_stringify_code_units|apply paired_JSON_stringify];
    exact Hv.
Qed.

(** ** The header read back: JSON *)

Lemma hex_value_digit (d : N) : (d < 16)%N -> hex_value (hex_digit d) = Some d.
Proof.
  intro H. destruct d as [|p]; [reflexivity|].
  do 4 (destruct p as [p|p|]; try reflexivity); exfalso; lia.
Qed.

Lemma hex_digits_value (c : N) :
  (N.shiftr c 12 * 4096 + N.land (N.shiftr c 8) 15 * 256
   + N.land (N.shiftr c 4) 15 * 16 + N.land c 15 = c)%N.
Proof.
  rewrite !land_15_mod.
  replace (N.shiftr c 4) with (c / 16)%N by (rewrite N.shiftr_div_pow2; reflexivity).
  replace (N.shiftr c 8) with (c / 16 / 16)%N
    by (rewrite N.shiftr_div_pow2, N.Div0.div_div; reflexivity).
  replace (N.shiftr c 12) with (c / 16 / 16 / 16)%N
    by (rewrite N.shiftr_div_pow2, !N.Div0.div_div; reflexivity).
  pose proof (N.div_mod c 16 ltac:(discriminate)).
  pose proof (N.div_mod (c / 16) 16 ltac:(discriminate)).
  pose proof (N.div_mod (c / 16 / 16) 16 ltac:(discriminate)).
  lia.
Qed.

(** An escape [\uXXXX] is read as its code unit. *)
Lemma string_characters_escape (c : N) (tail : jsstring) :
  (c < 65536)%N ->
  string_characters (unicode_escape c ++ tail)
  = match string_characters tail with
    | Some (text, rest) => Some (c :: text, rest)
    | None => None
    end.
Proof.
  intro Hc. unfold unicode_escape. cbn [app string_characters].
  change (92 =? 34)%N with false. change (92 =? 92)%N with true.
  change (117 =? 117)%N with true. cbv iota.
  assert (H12 : (N.shiftr c 12 < 16)%N).
  { rewrite N.shiftr_div_pow2. change (2 ^ 12)%N with 4096%N.
    apply N.Div0.div_lt_upper_bound. lia. }
  rewrite (@hex_value_digit _ H12), !(@hex_value_digit _ (land_15_lt _)).
  rewrite hex_digits_value. reflexivity.
Qed.

(** A character as [QuoteJSONString] writes it is read as itself. *)
Lemma string_characters_unit (c : N) (tail : jsstring) :
  (c < 65536)%N ->
  string_characters (quote_unit c ++ tail)
  = match string_characters tail with
    | Some (text, rest) => Some (c :: text, rest)
    | None => None
    end.
Proof.
  intro Hc. unfold quote_unit.
  destruct (N.eqb_spec c 8) as [->|H8]; [reflexivity|].
  destruct (N.eqb_spec c 9) as [->|H9]; [reflexivity|].
  destruct (N.eqb_spec c 10) as [->|H10]; [reflexivity|].
  destruct (N.eqb_spec c 12) as [->|H12]; [reflexivity|].
  destruct (N.eqb_spec c 13) as [->|H13]; [reflexivity|].
  destruct (N.eqb_spec c 34) as [->|H34]; [reflexivity|].
  destruct (N.eqb_spec c 92) as [->|H92]; [reflexivity|].
  destruct (N.ltb_spec c 32) as [H32|H32].
  - apply string_characters_escape. exact Hc.
  - cbn [app string_characters]. decide_tests. reflexivity.
Qed.

Lemma string_characters_pair (c d : N) (tail : jsstring) :
  is_high_surrogate c = true -> is_low_surrogate d = true ->
  string_characters (c :: d :: tail)
  = match string_characters tail with
    | Some (text, rest) => Some (c :: d :: text, rest)
    | None => None
    end.
Proof.
  unfold is_high_surrogate, is_low_surrogate.
  rewrite !andb_true_iff, !N.leb_le. intros (H1 & H2) (H3 & H4).
  cbn [string_characters]. decide_tests.
  destruct (string_characters tail) as [[text rest]|]; reflexivity.
Qed.

(** A string as [QuoteJSONString] writes it, after its opening quote, is
    read as the string. *)
Lemma string_characters_quote_aux (n : nat) (rest : jsstring) : forall s : jsstring,
  (List.length s <= n)%nat -> code_units s ->
  string_characters (quote_units s ++ 34%N :: rest) = Some (s, rest).
Proof.
  induction n as [n IH] using lt_wf_ind. intros s Hlen Hs.
  destruct s as [|c s']; [reflexivity|].
  inversion Hs as [|? ? Hc Hs']; subst. cbn [List.length] in Hlen.
  assert (IHs : string_characters (quote_units s' ++ 34%N :: rest) = Some (s', rest))
    by (apply (IH (List.length s')); [lia|lia|exact Hs']).
  cbn [quote_units].
  destruct (is_high_surrogate c) eqn:Hhigh.
  - destruct s' as [|d s''].
    + rewrite string_characters_escape by exact Hc. reflexivity.
    + inversion Hs' as [|? ? Hd Hs'']; subst. cbn [List.length] in Hlen.
      destruct (is_low_surrogate d) eqn:Hlow.
      * cbn [app]. rewrite (@string_characters_pair c d _ Hhigh Hlow).
        rewrite (IH (List.length s'')); [reflexivity|lia|lia|exact Hs''].
      * rewrite <- app_assoc, string_characters_escape by exact Hc.
        rewrite IHs. reflexivity.
  - destruct (is_low_surrogate c).
    + rewrite <- app_assoc, string_characters_escape by exact Hc.
      rewrite IHs. reflexivity.
    + rewrite <- app_assoc, string_characters_unit by exact Hc.
      rewrite IHs. reflexivity.
Qed.

Lemma string_characters_quote (s rest : jsstring) :
  code_units s ->
  string_characters (quote_units s ++ 34%N :: rest) = Some (s, rest).
Proof. intro H. exact (@string_characters_quote_aux _ rest s (le_n _) H). Qed.

(** The text of a number is one token. *)
Lemma number_token_app (text rest : jsstring) :
  forallb number_char text = true ->
  match rest with [] => True | c :: _ => number_char c = false end ->
  number_token (text ++ rest) = (text, rest).
Proof.
  intros Htext Hrest. induction text as [|c text IH]; cbn [app].
  - destruct rest as [|c rest]; [reflexivity|]. cbn [number_token]. rewrite Hrest.
    reflexivity.
  - cbn [forallb] in Htext. apply andb_true_iff in Htext as (Hc & Htext).
    cbn [number_token]. rewrite Hc, (IH Htext). reflexivity.
Qed.

Lemma number_head (text : jsstring) :
  JSON_number text = true ->
  exists c tail, text = c :: tail /\ ((c = 45)%N \/ is_digit c = true).
Proof.
  unfold JSON_number. intro H. apply andb_true_iff in H as (_ & H).
  destruct text as [|c tail]; [discriminate H|].
  exists c, tail. split; [reflexivity|].
  cbn [minus_sign] in H. destruct (N.eqb_spec c 45) as [->|Hc]; [left; reflexivity|].
  right. cbn [integer_part] in H.
  destruct (N.eqb_spec c 48) as [->|H0]; [reflexivity|].
  destruct (is_digit c); [reflexivity|discriminate H].
Qed.

(** How a value begins: not with white space, and with a character
    that closes neither an array nor an object. *)
Lemma JSON_stringify_head (v : json) :
  well_formed v ->
  exists c tail,
    JSON_stringify v = c :: tail
    /\ is_whitespace c = false /\ c <> 93%N /\ c <> 125%N.
Proof.
  destruct v as [| [|] | x | s | items | props]; intro Hv; cbn [JSON_stringify];
    try (eexists; eexists; split; [reflexivity|];
         split; [reflexivity|]; split; discriminate).
  cbn [well_formed] in Hv. rewrite Hv.
  destruct (@number_head _ Hv) as (c & tail & -> & Hc).
  exists c, tail. split; [reflexivity|].
  destruct Hc as [->|Hc]; [split; [reflexivity|split; discriminate]|].
  unfold is_digit in Hc. apply andb_true_iff in Hc as (H1 & H2).
  apply N.leb_le in H1, H2. unfold is_whitespace.
  split; [decide_tests; reflexivity|]. split; lia.
Qed.

Lemma skip_whitespace_head (c : N) (tail : jsstring) :
  is_whitespace c = false -> skip_whitespace (c :: tail) = c :: tail.
Proof. intro H. cbn [skip_whitespace]. rewrite H. reflexivity. Qed.

Lemma join_head (sep part : jsstring) (c : N) (tail : jsstring)
    (parts : list jsstring) :
  part = c :: tail -> exists tail', join sep (part :: parts) = c :: tail'.
Proof. intros ->. destruct parts; cbn [join app]; eexists; reflexivity. Qed.

Section ParseStringify.
Variable StringToNumber : jsstring -> number.

Lemma parse_value_number (fuel : nat) (text rest : jsstring) :
  JSON_number text = true ->
  match rest with [] => True | c :: _ => number_char c = false end ->
  parse_value StringToNumber (S fuel) (text ++ rest)
  = Some (JNum (StringToNumber text), rest).
Proof.
  intros Htext Hrest.
  pose proof Htext as Hchars. unfold JSON_number in Hchars.
  apply andb_true_iff in Hchars as (Hchars & _).
  pose proof (number_token_app text rest Hchars Hrest) as Htoken.
  destruct (@number_head _ Htext) as (c & tail & -> & Hc).
  cbn [app] in *. simpl parse_value.
  assert (Hw : is_whitespace c = false /\ (c =? 110)%N = false /\ (c =? 116)%N = false
               /\ (c =? 102)%N = false /\ (c =? 34)%N = false /\ (c =? 91)%N = false
               /\ (c =? 123)%N = false).
  { destruct Hc as [->|Hc]; [repeat split; reflexivity|].
    unfold is_digit in Hc. apply andb_true_iff in Hc as (H1 & H2).
    apply N.leb_le in H1, H2. unfold is_whitespace.
    repeat split; decide_tests; reflexivity. }
  destruct Hw as (-> & -> & -> & -> & -> & -> & ->).
  cbn [number_token] in Htoken. rewrite Htoken, Htext. reflexivity.
Qed.

Lemma parse_value_string (fuel : nat) (s rest : jsstring) :
  code_units s ->
  parse_value StringToNumber (S fuel) (QuoteJSONString s ++ rest) = Some (JStr s, rest).
Proof.
  intro Hs. unfold QuoteJSONString. rewrite <- !app_assoc. cbn [app].
  simpl parse_value. rewrite (@string_characters_quote s rest Hs). reflexivity.
Qed.

Lemma parse_value_array (fuel : nat) (c : N) (tail rest : jsstring) (items : list json) :
  is_whitespace c = false -> c <> 93%N ->
  parse_elements StringToNumber fuel (c :: tail) = Some (items, rest) ->
  parse_value StringToNumber (S fuel) (91%N :: c :: tail) = Some (JArr items, rest).
Proof.
  intros Hw Hc Hitems. simpl parse_value. rewrite Hw.
  destruct (N.eqb_spec c 93) as [E|_]; [contradiction|].
  simpl parse_value in Hitems. simpl. rewrite Hitems. reflexivity.
Qed.

Lemma parse_value_object (fuel : nat) (c : N) (tail rest : jsstring)
    (members : list (jsstring * json)) :
  is_whitespace c = false -> c <> 125%N ->
  parse_members StringToNumber fuel (c :: tail) = Some (members, rest) ->
  parse_value StringToNumber (S fuel) (123%N :: c :: tail)
  = Some (JObj (own_properties members), rest).
Proof.
  intros Hw Hc Hmembers. simpl parse_value. rewrite Hw.
  destruct (N.eqb_spec c 125) as [E|_]; [contradiction|].
  simpl parse_value in Hmembers. simpl. rewrite Hmembers. reflexivity.
Qed.

Lemma parse_elements_last (fuel : nat) (s rest : jsstring) (v : json) :
  parse_value StringToNumber fuel s = Some (v, 93%N :: rest) ->
  parse_elements StringToNumber (S fuel) s = Some ([v], rest).
Proof. intro H. simpl. simpl in H. rewrite H. reflexivity. Qed.

Lemma parse_elements_more (fuel : nat) (s tail rest : jsstring) (v : json)
    (items : list json) :
  parse_value StringToNumber fuel s = Some (v, 44%N :: tail) ->
  parse_elements StringToNumber fuel tail = Some (items, rest) ->
  parse_elements StringToNumber (S fuel) s = Some (v :: items, rest).
Proof.
  intros H Hitems. simpl. simpl in H, Hitems. rewrite H.
  cbn [skip_whitespace]. change (is_whitespace 44) with false. cbv iota.
  change (44 =? 44)%N with true. cbv iota. rewrite Hitems. reflexivity.
Qed.

Lemma parse_members_last (fuel : nat) (key tail rest : jsstring) (v : json) :
  code_units key ->
  parse_value StringToNumber fuel tail = Some (v, 125%N :: rest) ->
  parse_members StringToNumber (S fuel) (QuoteJSONString key ++ 58%N :: tail)
  = Some ([(key, v)], rest).
Proof.
  intros Hkey H. unfold QuoteJSONString. rewrite <- !app_assoc. cbn [app].
  simpl. simpl in H. rewrite (@string_characters_quote key (58%N :: tail) Hkey).
  cbn [skip_whitespace]. change (is_whitespace 58) with false. cbv iota.
  change (58 =? 58)%N with true. cbv iota. rewrite H. reflexivity.
Qed.

Lemma parse_members_more (fuel : nat) (key tail tail' rest : jsstring) (v : json)
    (members : list (jsstring * json)) :
  code_units key ->
  parse_value StringToNumber fuel tail = Some (v, 44%N :: tail') ->
  parse_members StringToNumber fuel tail' = Some (members, rest) ->
  parse_members StringToNumber (S fuel) (QuoteJSONString key ++ 58%N :: tail)
  = Some ((key, v) :: members, rest).
Proof.
  intros Hkey H Hmembers. unfold QuoteJSONString. rewrite <- !app_assoc. cbn [app].
  simpl. simpl in H, Hmembers. rewrite (@string_characters_quote key (58%N :: tail) Hkey).
  cbn [skip_whitespace]. change (is_whitespace 58) with false. cbv iota.
  change (58 =? 58)%N with true. cbv iota. rewrite H.
  cbn [skip_whitespace]. change (is_whitespace 44) with false. cbv iota.
  change (44 =? 44)%N with true. cbv iota. rewrite Hmembers. reflexivity.
Qed.

(** [JSON.parse] reads the text of a value as the value, whatever
    follows it that is no part of a number. *)
Lemma parse_value_stringify : forall (v : json) (fuel : nat) (rest : jsstring),
  well_formed v -> reads_back StringToNumber v ->
  match rest with [] => True | c :: _ => number_char c = false end ->
  (size v <= fuel)%nat ->
  parse_value StringToNumber fuel (JSON_stringify v ++ rest) = Some (v, rest).
Proof.
  fix IH 1. intros [| [|] | x | s | items | props] fuel rest Hv Hr Hrest Hfuel;
    cbn [size] in Hfuel; (destruct fuel as [|f]; [exfalso; lia|]);
    apply le_S_n in Hfuel; cbn [JSON_stringify].
  - reflexivity.
  - reflexivity.
  - reflexivity.
  - cbn [well_formed] in Hv. cbn [reads_back] in Hr. rewrite Hv.
    rewrite (@parse_value_number f (literal x) rest Hv Hrest), Hr. reflexivity.
  - apply parse_value_string. exact Hv.
  - cbn [well_formed] in Hv. cbn [reads_back] in Hr.
    assert (Hel : forall rest' : jsstring, items <> [] ->
              parse_elements StringToNumber f
                (join (js ",") (map JSON_stringify items) ++ 93%N :: rest')
              = Some (items, rest')).
    { clear Hrest rest. revert f Hfuel Hv Hr.
      induction items as [|x l IHl]; intros f Hfuel Hv Hr rest' Hne; [contradiction|].
      destruct Hv as (Hx & Hl). destruct Hr as (Rx & Rl).
      destruct f as [|f']; [exfalso; lia|]. apply le_S_n in Hfuel.
      destruct l as [|y l'].
      - cbn [map join]. apply parse_elements_last.
        apply IH; [exact Hx|exact Rx|reflexivity|lia].
      - change (join (js ",") (map JSON_stringify (x :: y :: l')))
          with (JSON_stringify x ++ js "," ++ join (js ",") (map JSON_stringify (y :: l'))).
        rewrite <- !app_assoc. change (js ",") with [44%N]. cbn [app].
        apply parse_elements_more
          with (tail := join [44%N] (map JSON_stringify (y :: l')) ++ 93%N :: rest').
        + apply IH; [exact Hx|exact Rx|reflexivity|lia].
        + apply IHl; [lia|exact Hl|exact Rl|discriminate]. }
    destruct items as [|x l]; [reflexivity|].
    destruct (@JSON_stringify_head x (proj1 Hv)) as (c & tail & Hhead & Hw & Hc & _).
    specialize (Hel rest ltac:(discriminate)).
    cbn [map] in Hel |- *.
    destruct (@join_head (js ",") _ c tail (map JSON_stringify l) Hhead)
      as (tail' & Hjoin).
    rewrite Hjoin in Hel |- *. change (js "[") with [91%N]. change (js "]") with [93%N].
    rewrite <- !app_assoc. cbn [app] in Hel |- *.
    apply parse_value_array; assumption.
  - cbn [well_formed] in Hv. cbn [reads_back] in Hr. destruct Hv as (Hown & Hv).
    assert (Hel : forall rest' : jsstring, props <> [] ->
              parse_members StringToNumber f
                (join (js ",")
                   (map (fun kv => QuoteJSONString (fst kv) ++ js ":" ++ JSON_stringify (snd kv))
                        props) ++ 125%N :: rest')
              = Some (props, rest')).
    { clear Hrest rest Hown. revert f Hfuel Hv Hr.
      induction props as [|[key x] l IHl]; intros f Hfuel Hv Hr rest' Hne; [contradiction|].
      destruct Hv as (Hkey & Hx & Hl). destruct Hr as (Rx & Rl).
      cbn [fst snd] in *.
      destruct f as [|f']; [exfalso; lia|]. apply le_S_n in Hfuel.
      destruct l as [|y l'].
      - cbn [map join fst snd]. rewrite <- !app_assoc. change (js ":") with [58%N].
        cbn [app]. apply parse_members_last; [exact Hkey|].
        apply IH; [exact Hx|exact Rx|reflexivity|lia].
      - change (join (js ",")
                  (map (fun kv => QuoteJSONString (fst kv) ++ js ":" ++ JSON_stringify (snd kv))
                       ((key, x) :: y :: l')))
          with ((QuoteJSONString key ++ js ":" ++ JSON_stringify x) ++ js "," ++
                join (js ",")
                  (map (fun kv => QuoteJSONString (fst kv) ++ js ":" ++ JSON_stringify (snd kv))
                       (y :: l'))).
        rewrite <- !app_assoc. change (js ",") with [44%N]. change (js ":") with [58%N].
        cbn [app].
        apply parse_members_more
          with (tail' := join [44%N]
                  (map (fun kv => QuoteJSONString (fst kv) ++ [58%N] ++ JSON_stringify (snd kv))
                       (y :: l')) ++ 125%N :: rest').
        + exact Hkey.
        + apply IH; [exact Hx|exact Rx|reflexivity|lia].
        + apply IHl; [lia|exact Hl|exact Rl|discriminate]. }
    destruct props as [|[key x] l]; [reflexivity|].
    specialize (Hel rest ltac:(discriminate)).
    cbn [map fst snd] in Hel |- *.
    match goal with
    | |- context [join ?sep (?part :: ?parts)] =>
        destruct (@join_head sep part 34%N _ parts eq_refl) as (tail' & Hjoin);
        match type of Hjoin with
        | ?text = _ =>
            change (join sep (part :: parts)) with text;
            match type of Hel with
            | context [join ?sep' (?part' :: ?parts')] =>
                change (join sep' (part' :: parts')) with text in Hel
            end
        end
    end.
    rewrite Hjoin in Hel |- *. change (js "{") with [123%N]. change (js "}") with [125%N].
    rewrite <- !app_assoc. cbn [app] in Hel |- *.
    rewrite (@parse_value_object f 34%N _ rest ((key, x) :: l) eq_refl
               ltac:(discriminate) Hel).
    rewrite Hown. reflexivity.
Qed.

End ParseStringify.

(** The fuel [JSON.parse] gives itself is enough for the text of a
    value. *)
Lemma size_le_length : forall v : json,
  well_formed v -> (size v <= List.length (JSON_stringify v))%nat.
Proof.
  fix IH 1. intros [| [|] | x | s | items | props] Hv;
    cbn [size JSON_stringify].
  - cbn. lia.
  - cbn. lia.
  - cbn. lia.
  - cbn [well_formed] in Hv. rewrite Hv.
    destruct (@number_head _ Hv) as (c & tail & -> & _). cbn [List.length]. lia.
  - unfold QuoteJSONString. rewrite !length_app. cbn [List.length]. lia.
  - change (js "[") with [91%N]. change (js "]") with [93%N].
    cbn [app List.length]. rewrite length_app. cbn [List.length].
    apply le_n_S. cbn [well_formed] in Hv. revert Hv.
    induction items as [|x l IHl]; intro Hv; [cbn; lia|].
    destruct Hv as (Hx & Hl). specialize (IHl Hl). pose proof (IH x Hx) as Hsize.
    destruct l as [|y l'].
    + cbn [map join]. lia.
    + change (join (js ",") (map JSON_stringify (x :: y :: l')))
        with (JSON_stringify x ++ js "," ++ join (js ",") (map JSON_stringify (y :: l'))).
      rewrite !length_app. change (List.length (js ",")) with 1%nat. lia.
  - change (js "{") with [123%N]. change (js "}") with [125%N].
    cbn [app List.length]. rewrite length_app. cbn [List.length].
    apply le_n_S. cbn [well_formed] in Hv. destruct Hv as (_ & Hv). revert Hv.
    induction props as [|[key x] l IHl]; intro Hv; [cbn; lia|].
    destruct Hv as (_ & Hx & Hl). specialize (IHl Hl). cbn [snd] in Hx |- *.
    pose proof (IH x Hx) as Hsize.
    destruct l as [|y l'].
    + cbn [map join fst snd]. rewrite !length_app. lia.
    + change (join (js ",")
                (map (fun kv => QuoteJSONString (fst kv) ++ js ":" ++ JSON_stringify (snd kv))
                     ((key, x) :: y :: l')))
        with ((QuoteJSONString key ++ js ":" ++ JSON_stringify x) ++ js "," ++
              join (js ",")
                (map (fun kv => QuoteJSONString (fst kv) ++ js ":" ++ JSON_stringify (snd kv))
                     (y :: l'))).
      rewrite !length_app. change (List.length (js ",")) with 1%nat. lia.
Qed.

(** [JSON.parse(JSON.stringify(v))] is [v]. *)
Lemma JSON_parse_stringify (StringToNumber : jsstring -> number) (v : json) :
  well_formed v -> reads_back StringToNumber v ->
  JSON_parse StringToNumber (JSON_stringify v) = Some v.
Proof.
  intros Hv Hr. unfold JSON_parse.
  pose proof (@parse_value_stringify StringToNumber v
                (S (List.length (JSON_stringify v))) [] Hv Hr I
                (le_S _ _ (@size_le_length v Hv))) as H.
  rewrite app_nil_r in H. rewrite H. reflexivity.
Qed.

(** The value the handler serializes is the one the specification
    describes. *)
Lemma source_entries_spec (documents : list Document) :
  JArr (map Retrieval.source_entry documents) = Spec.sources documents.
Proof.
  unfold Spec.sources. f_equal. apply map_ext. intro doc.
  unfold Retrieval.source_entry, Spec.preview. rewrite slice_0_50. reflexivity.
Qed.

Lemma sources_read_back (StringToNumber : jsstring -> number)
    (documents : list Document) :
  Forall (fun doc => reads_back StringToNumber (metadata doc)) documents ->
  reads_back StringToNumber (JArr (map Retrieval.source_entry documents)).
Proof.
  intro H. cbn [reads_back].
  induction H as [|doc rest Hdoc _ IH]; cbn [map]; [exact I|].
  split; [|exact IH]. cbn. split; [exact I|]. split; [exact Hdoc|exact I].
Qed.

(** What the client reads from the header of a streamed answer. *)
Lemma parse_sources_serialized (StringToNumber : jsstring -> number)
    (documents : list Document) :
  Forall (fun doc => code_units (pageContent doc) /\ well_formed (metadata doc))
         documents ->
  Forall (fun doc => reads_back StringToNumber (metadata doc)) documents ->
  Client.parse_sources StringToNumber (Some (Retrieval.serializedSources documents))
  = Some (Spec.sources documents).
Proof.
  intros Hdocs Hread.
  pose proof (@sources_well_formed documents Hdocs) as Hv.
  pose proof (@header_text_reads_back _ Hv) as Htext.
  unfold Client.parse_sources. fold (Retrieval.serializedSources documents) in Htext.
  destruct (Retrieval.serializedSources documents) as [|c value] eqn:E.
  - cbn in Htext. discriminate Htext.
  - cbv beta iota. rewrite Htext, JSON_parse_stringify by (exact Hv || apply sources_read_back; exact Hread).
    rewrite source_entries_spec. reflexivity.
Qed.

(** C8. The [x-sources] header of a streamed answer is the base64 text of
    the UTF-8 octets of the JSON text of an array with one entry per
    document the search answered, in the order of the search, each entry
    carrying exactly [pageContent], the first 50 characters (UTF-16 code
    units, as [slice] counts them) of the chunk followed by three dots,
    and [metadata], the metadata of the chunk as it is. The encodings are
    the ones the client undoes: decoded from base64 the header gives the
    octets of the JSON text, read as UTF-8 they give the JSON text, and
    [JSON.parse] of it gives that array. *)
Theorem x_sources_is_base64_of_json_previews
    (env : Retrieval.Env) (req : NextRequest) (r : Response) (st : Stream buffer) :
  Retrieval.POST env req = Some (Ok r) ->
  body r = TextStream st ->
  exists p1 standalone documents value,
    Retrieval.similaritySearch env [Retrieval.ModelCall p1] standalone = Ok documents
    /\ header "x-sources" (headers r) = Some value
    /\ value = toString_base64 (Buffer_from (JSON_stringify (Spec.sources documents)))
    /\ (Forall (fun doc => code_units (pageContent doc) /\ well_formed (metadata doc))
               documents ->
        Buffer_from_base64 value = Buffer_from (JSON_stringify (Spec.sources documents))
        /\ toString_utf8 (Buffer_from_base64 value)
           = JSON_stringify (Spec.sources documents)
        /\ forall StringToNumber : jsstring -> number,
             Forall (fun doc => reads_back StringToNumber (metadata doc)) documents ->
             Client.parse_sources StringToNumber (header "x-sources" (headers r))
             = Some (Spec.sources documents)).
Proof.
  intros HP Hbody.
  destruct (@answered_text_stream env req r st HP Hbody) as (b & p1 & q & docs & _ & _ & Hs & Hh).
  exists p1, q, docs, (Retrieval.serializedSources docs).
  assert (Hheader : header "x-sources" (headers r)
                    = Some (Retrieval.serializedSources docs))
    by (rewrite Hh; reflexivity).
  split; [exact Hs|]. split; [exact Hheader|].
  split; [unfold Retrieval.serializedSources; rewrite source_entries_spec; reflexivity|].
  intro Hdocs. pose proof (@sources_well_formed docs Hdocs) as Hv.
  unfold Retrieval.serializedSources at 1 2. rewrite <- source_entries_spec.
  split; [apply base64_of_text_reads_back, JSON_stringify_code_units; exact Hv|].
  split; [apply header_text_reads_back; exact Hv|].
  intros StringToNumber Hread. rewrite Hheader, source_entries_spec.
  apply parse_sources_serialized; assumption.
Qed.

Lemma x_sources_is_base64_of_json_previews_witness :
  let r := StreamingTextResponse
             {| chunks := [TextEncoder_encode (js "Blue"); TextEncoder_encode (js "!")];
                failure := None |}
             [ ("x-message-index", js "1");
               ("x-sources", Retrieval.serializedSources [Scenario.sky]) ] in
  exists p1 standalone documents value,
    Retrieval.similaritySearch Scenario.echo [Retrieval.ModelCall p1] standalone
      = Ok documents
    /\ header "x-sources" (headers r) = Some value
    /\ value = toString_base64 (Buffer_from (JSON_stringify (Spec.sources documents)))
    /\ (Forall (fun doc => code_units (pageContent doc) /\ well_formed (metadata doc))
               documents ->
        Buffer_from_base64 value = Buffer_from (JSON_stringify (Spec.sources documents))
        /\ toString_utf8 (Buffer_from_base64 value)
           = JSON_stringify (Spec.sources documents)
        /\ forall StringToNumber : jsstring -> number,
             Forall (fun doc => reads_back StringToNumber (metadata doc)) documents ->
             Client.parse_sources StringToNumber (header "x-sources" (headers r))
             = Some (Spec.sources documents)).
Proof.
  exact (@x_sources_is_base64_of_json_previews Scenario.echo Scenario.first_question
           _ _ eq_refl eq_refl).
Defined.

(** The header of that run, as the client receives it and reads it. *)
Example x_sources_of_the_sky :
  let sent := option_map (fun answer =>
                match answer with
                | Ok r => header "x-sources" (headers r)
                | Throw _ => None
                end)
                (Retrieval.POST Scenario.echo Scenario.first_question) in
  sent = Some (Some (js "W3sicGFnZUNvbnRlbnQiOiJUaGUgc2t5IGlzIGJsdWUuLi4uIiwibWV0YWRhdGEiOnsibG9jIjp7ImZyb20iOjEsInRvIjoxfX19XQ=="))
  /\ option_map (Client.parse_sources Scenario.StringToNumber) sent
     = Some (Some (JArr [ JObj [ (js "pageContent", JStr (js "The sky is blue...."));
                                 (js "metadata", metadata Scenario.sky) ] ])).
Proof. split; vm_compute; reflexivity. Qed.
(** * Further properties of the code *)

(** ** [match_documents]: what every answer has *)

Section MatchDocumentsAnswers.
Import Pgvector.
Local Open Scope R_scope.

(** Either scan delivers rows of the table, each at most once. *)
Lemma scan_rows (A : Type) (key : A -> float8) (rows visited : list A) :
  scan key rows visited -> exists skipped, Permutation (visited ++ skipped) rows.
Proof.
  intros [(Hperm & _)|(Hsub & _)]; [|exact Hsub].
  exists []. rewrite app_nil_r. symmetry. exact Hperm.
Qed.

(** [LIMIT] keeps a beginning. *)
Lemma limit_firstn (A : Type) (n : option Z) (l rs : list A) :
  limit n l = Some rs ->
  exists k, rs = firstn k l
            /\ forall K, n = Some K -> (0 <= K)%Z /\ k = Z.to_nat K.
Proof.
  unfold limit. destruct n as [K|].
  - destruct (Z.ltb_spec K 0); [discriminate|]. intros [= <-].
    exists (Z.to_nat K). split; [reflexivity|]. intros K' [= <-]. split; [lia|reflexivity].
  - intros [= <-]. exists (List.length l). split; [symmetry; apply firstn_all|].
    discriminate.
Qed.

(** What [WHERE], a scan, [LIMIT] and [SELECT] leave: rows made from
    rows that pass the condition, each used once at most. *)
Lemma answer_rows (B : Type) (key : Row -> float8) (make : Row -> B)
    (passing visited : list Row) (match_count : option Z) (rs : list B) :
  scan key passing visited ->
  limit match_count (map make visited) = Some rs ->
  exists chosen rest,
    Permutation (chosen ++ rest) passing
    /\ rs = map make chosen
    /\ forall K, match_count = Some K ->
         (0 <= K)%Z /\ (List.length chosen <= Z.to_nat K)%nat.
Proof.
  intros Hscan Hlimit.
  destruct (scan_rows Hscan) as (skipped & Hperm).
  destruct (limit_firstn _ _ Hlimit) as (k & -> & Hk).
  exists (firstn k visited), (skipn k visited ++ skipped).
  split; [|split].
  - rewrite app_assoc, firstn_skipn. exact Hperm.
  - apply firstn_map.
  - intros K HK. destruct (Hk K HK) as (H0 & ->). split; [exact H0|].
    rewrite length_firstn. lia.
Qed.

(** Rows with distinct keys keep distinct keys under [WHERE]. *)
Lemma NoDup_map_filter (Key Item : Type) (key : Item -> Key) (keep : Item -> bool) :
  forall rows : list Item,
    NoDup (map key rows) -> NoDup (map key (filter keep rows)).
Proof.
  intros rows Hkeys. induction rows as [|row rows IH]; cbn [map filter] in *;
    [exact Hkeys|].
  inversion Hkeys as [|? ? Hfresh Hrest]; subst.
  destruct (keep row); cbn [map]; [|auto].
  constructor; [|auto]. intro Hin. apply Hfresh.
  apply in_map_iff in Hin as (other & Hother & Hin). apply filter_In in Hin as (Hin & _).
  rewrite <- Hother. apply in_map. exact Hin.
Qed.

(** The run used as an instance: the table holds a row with an embedding
    and a row without, and the scan of the table delivers both. *)
Lemma both_rows_answer :
  SupabaseSetup.match_documents Scenario.no_containment Scenario.nearby Scenario.minus
    [Scenario.east; Scenario.unembedded] [1; 0] (Some 2%Z) None
    [ select Scenario.nearby Scenario.minus [1; 0] Scenario.east;
      select Scenario.nearby Scenario.minus [1; 0] Scenario.unembedded ].
Proof.
  exists [Scenario.east; Scenario.unembedded]. split; [|reflexivity].
  left. split; [reflexivity|].
  repeat constructor.
Qed.

(** X2. An answer of [match_documents] never has more rows than
    [match_count], nor more rows than pass the condition of the function:
    the rows of the answer are made from rows that pass, each used once
    at most. *)
Theorem match_documents_count
    (jsonb_contains : json -> json -> bool) (cosine : vector -> vector -> option R)
    (minus : R -> R) (documents : list Row) (query_embedding : vector)
    (match_count : option Z) (filter_ : option json) (rs : list Match) :
  SupabaseSetup.match_documents jsonb_contains cosine minus documents query_embedding
    match_count filter_ rs ->
  let passing := filter (SupabaseSetup.where_ jsonb_contains filter_) documents in
  (exists chosen rest,
      Permutation (chosen ++ rest) passing
      /\ rs = map (select cosine minus query_embedding) chosen)
  /\ (List.length rs <= List.length passing)%nat
  /\ forall K, match_count = Some K ->
       (0 <= K)%Z /\ (List.length rs <= Z.to_nat K)%nat.
Proof.
  intros (visited & Hscan & Hlimit) passing.
  destruct (@answer_rows _ _ _ _ _ _ _ Hscan Hlimit) as (chosen & rest & Hperm & -> & HK).
  split; [exists chosen, rest; auto|]. rewrite length_map. split.
  - apply Permutation_length in Hperm. rewrite length_app in Hperm.
    fold passing in Hperm. lia.
  - exact HK.
Qed.

Lemma match_documents_count_witness :
  (List.length [ select Scenario.nearby Scenario.minus [1%R; 0%R] Scenario.east;
                 select Scenario.nearby Scenario.minus [1%R; 0%R] Scenario.unembedded ]
   <= Z.to_nat 2)%nat.
Proof.
  exact (proj2 (proj2 (proj2 (match_documents_count both_rows_answer)) 2%Z eq_refl)).
Defined.

(** X3. When the ids of the table are distinct, as its primary key makes
    them, the ids of the rows returned are distinct: no stored row is
    returned twice. *)
Theorem match_documents_ids_distinct
    (jsonb_contains : json -> json -> bool) (cosine : vector -> vector -> option R)
    (minus : R -> R) (documents : list Row)
    (query_embedding : vector) (match_count : option Z) (filter_ : option json)
    (rs : list Match) :
  NoDup (map id documents) ->
  SupabaseSetup.match_documents jsonb_contains cosine minus documents query_embedding
    match_count filter_ rs ->
  NoDup (map match_id rs).
Proof.
  intros Hids (visited & Hscan & Hlimit).
  destruct (@answer_rows _ _ _ _ _ _ _ Hscan Hlimit) as (chosen & rest & Hperm & -> & _).
  rewrite map_map. cbn [match_id select].
  apply (NoDup_map_filter id (SupabaseSetup.where_ jsonb_contains filter_)) in Hids.
  apply (Permutation_map id) in Hperm. rewrite map_app in Hperm.
  apply (Permutation_NoDup (Permutation_sym Hperm)) in Hids.
  exact (NoDup_app_remove_r _ _ Hids).
Qed.

Lemma match_documents_ids_distinct_witness :
  NoDup (map match_id
           [ select Scenario.nearby Scenario.minus [1; 0] Scenario.east;
             select Scenario.nearby Scenario.minus [1; 0] Scenario.unembedded ]).
Proof.
  apply (@match_documents_ids_distinct Scenario.no_containment Scenario.nearby
           Scenario.minus [Scenario.east; Scenario.unembedded] [1; 0] (Some 2%Z) None).
  - cbn. repeat constructor; cbn; intuition discriminate.
  - exact both_rows_answer.
Defined.

(** X5. With a metadata filter, every row returned comes from a stored
    row whose metadata is present and contains the filter; a row stored
    with null metadata is never returned under a filter. *)
Theorem match_documents_respects_filter
    (jsonb_contains : json -> json -> bool) (cosine : vector -> vector -> option R)
    (minus : R -> R) (documents : list Row)
    (query_embedding : vector) (match_count : option Z) (f : json)
    (rs : list Match) (m : Match) :
  SupabaseSetup.match_documents jsonb_contains cosine minus documents query_embedding
    match_count (Some f) rs ->
  In m rs ->
  exists d md,
    In d documents /\ m = select cosine minus query_embedding d
    /\ metadata d = Some md /\ match_metadata m = Some md
    /\ jsonb_contains md f = true.
Proof.
  intros (visited & Hscan & Hlimit) Hm.
  destruct (@answer_rows _ _ _ _ _ _ _ Hscan Hlimit) as (chosen & rest & Hperm & -> & _).
  apply in_map_iff in Hm as (d & <- & Hd).
  assert (Hpass : In d (filter (SupabaseSetup.where_ jsonb_contains (Some f)) documents)).
  { apply (Permutation_in _ Hperm). apply in_or_app. left. exact Hd. }
  apply filter_In in Hpass as (Hin & Hw). unfold SupabaseSetup.where_ in Hw.
  destruct (metadata d) as [md|] eqn:E; [|discriminate].
  exists d, md. cbn [match_metadata select]. auto.
Qed.

Lemma match_documents_respects_filter_witness :
  exists d md,
    In d [Scenario.unembedded; Scenario.east]
    /\ select Scenario.nearby Scenario.minus [1; 0] Scenario.east
       = select Scenario.nearby Scenario.minus [1; 0] d
    /\ metadata d = Some md
    /\ match_metadata (select Scenario.nearby Scenario.minus [1; 0] Scenario.east)
       = Some md
    /\ (fun _ _ => true) md (JObj []) = true.
Proof.
  apply (@match_documents_respects_filter (fun _ _ => true) Scenario.nearby
           Scenario.minus [Scenario.unembedded; Scenario.east] [1; 0] None (JObj [])
           [select Scenario.nearby Scenario.minus [1; 0] Scenario.east]).
  - exists [Scenario.east]. split; [|reflexivity].
    left. split; [reflexivity|]. repeat constructor.
  - left. reflexivity.
Defined.

(** X6. In the threshold variant every row returned has a similarity
    above the threshold in the order of the database: a similarity that is
    a number is greater than [match_threshold], and a row stored without
    embedding, whose similarity is null, is never returned. *)
Theorem match_documents_above_threshold
    (cosine : vector -> vector -> option R) (minus : R -> R)
    (documents : list Row) (query_embedding : vector) (match_threshold : R)
    (match_count : option Z) (rs : list Match) (m : Match) :
  SupabaseSetupGrok.match_documents cosine minus documents query_embedding
    match_threshold match_count rs ->
  In m rs ->
  similarity m <> NULL
  /\ (forall s, similarity m = Finite s -> match_threshold < s)
  /\ exists d, In d documents /\ m = select cosine minus query_embedding d
               /\ embedding d <> None.
Proof.
  intros (visited & Hscan & Hlimit) Hm.
  destruct (@answer_rows _ _ _ _ _ _ _ Hscan Hlimit) as (chosen & rest & Hperm & -> & _).
  apply in_map_iff in Hm as (d & <- & Hd).
  assert (Hpass : In d (filter (SupabaseSetupGrok.where_ cosine minus query_embedding
                                  match_threshold) documents)).
  { apply (Permutation_in _ Hperm). apply in_or_app. left. exact Hd. }
  apply filter_In in Hpass as (Hin & Hw). unfold SupabaseSetupGrok.where_ in Hw.
  assert (He : embedding d <> None).
  { intro E. rewrite E in Hw. discriminate Hw. }
  cbn [similarity select].
  set (sim := one_minus minus (distance cosine (embedding d) query_embedding)) in *.
  split; [|split].
  - intro E. rewrite E in Hw. discriminate Hw.
  - intros s Hs. rewrite Hs in Hw. cbn [float8_gtb] in Hw.
    destruct (Rlt_dec match_threshold s); [assumption|discriminate].
  - exists d. auto.
Qed.

Lemma match_documents_above_threshold_witness :
  similarity (select Scenario.nearby Scenario.minus [1; 0] Scenario.east) <> NULL
  /\ (forall s,
        similarity (select Scenario.nearby Scenario.minus [1; 0] Scenario.east)
        = Finite s -> 78 / 100 < s)
  /\ exists d, In d [Scenario.unembedded; Scenario.east]
               /\ select Scenario.nearby Scenario.minus [1; 0] Scenario.east
                  = select Scenario.nearby Scenario.minus [1; 0] d
               /\ embedding d <> None.
Proof.
  apply (@match_documents_above_threshold Scenario.nearby Scenario.minus
           [Scenario.unembedded; Scenario.east] [1; 0]
           (78 / 100) None [select Scenario.nearby Scenario.minus [1; 0] Scenario.east]).
  - exists [Scenario.east]. split; [|reflexivity].
    left. split; [|repeat constructor].
    cbn [filter]. unfold SupabaseSetupGrok.where_ at 1.
    cbn [embedding Scenario.unembedded distance one_minus float8_gtb].
    unfold SupabaseSetupGrok.where_.
    cbn [embedding Scenario.east distance cosine_distance Scenario.nearby one_minus
         float8_gtb].
    unfold Scenario.minus.
    destruct (Rlt_dec (78 / 100) (1 - 0)) as [_|Hno]; [reflexivity|exfalso; lra].
  - left. reflexivity.
Defined.

End MatchDocumentsAnswers.

(** ** The retrieval handler: what one request does *)

Lemma latest_split (A : Type) (l : list A) :
  match array_get l (Z.of_nat (List.length l) - 1) with
  | Some latest => slice l 0 (-1) ++ [latest] = l
  | None => l = [] /\ slice l 0 (-1) = []
  end.
Proof.
  rewrite slice_0_minus_1. unfold array_get.
  destruct l as [|x l]; [cbn; auto|].
  assert (Hne : x :: l <> []) by discriminate.
  destruct (Z.ltb_spec (Z.of_nat (List.length (x :: l)) - 1) 0) as [H|H];
    [cbn [List.length] in H; lia|].
  pose proof (app_removelast_last x Hne) as E.
  assert (Hlen : Z.to_nat (Z.of_nat (List.length (x :: l)) - 1)
                 = List.length (removelast (x :: l))).
  { apply (f_equal (@List.length A)) in E. rewrite length_app in E.
    cbn [List.length] in *. lia. }
  rewrite Hlen. clear Hlen H.
  set (rl := removelast (x :: l)) in *. set (lst := last (x :: l) x) in *.
  clearbody rl lst. rewrite E.
  rewrite nth_error_app2 by lia. rewrite Nat.sub_diag. reflexivity.
Qed.

(** X8. [messages.slice(0, -1)] and [messages[messages.length - 1]] split
    the list: the history followed by the latest message is the whole
    list, the history is one shorter than the list, and only the empty
    list has no latest message. *)
Theorem history_and_latest_split (A : Type) (l : list A) :
  match array_get l (Z.of_nat (List.length l) - 1) with
  | Some latest => slice l 0 (-1) ++ [latest] = l
  | None => l = [] /\ slice l 0 (-1) = []
  end
  /\ List.length (slice l 0 (-1)) = (List.length l - 1)%nat.
Proof.
  split.
  - apply latest_split.
  - apply length_slice_0_minus_1.
Qed.

Lemma catch_clause_no_stream (e : JsError) (r : Response) (st : Stream buffer) :
  catch_clause e = Ok r -> body r = TextStream st -> False.
Proof.
  intros H Hbody. apply catch_clause_body in H as (v & Hv). congruence.
Qed.

(** X9. A request answered with the stream has made three calls, in this
    order: the model with the condensing prompt, the store with the
    condensed question, the model with the answer prompt. The answer
    prompt is filled with the joined page contents of the documents the
    store answered, the same history text and the condensed question (not
    the wording of the latest message); the body is the stream of that
    last call, delta by delta, and [x-sources] lists those documents. *)
Theorem retrieval_answer_run
    (env : Retrieval.Env) (req : NextRequest) (r : Response) (st : Stream buffer) :
  Retrieval.POST env req = Some (Ok r) ->
  body r = TextStream st ->
  exists b latest p1 deltas standalone documents p2 answer,
    json_ req = Ok b
    /\ slice (Spec.messages_of b) 0 (-1) ++ [latest] = Spec.messages_of b
    /\ let history :=
         Retrieval.formatVercelMessages (slice (Spec.messages_of b) 0 (-1)) in
       Retrieval.condense_text history (content latest) = Ok p1
       /\ Retrieval.model_ env [] p1 = Ok deltas
       /\ standalone = List.concat (chunks deltas)
       /\ Retrieval.similaritySearch env [Retrieval.ModelCall p1] standalone
          = Ok documents
       /\ Retrieval.answer_text (Retrieval.combineDocumentsFn documents)
            history standalone = Ok p2
       /\ Retrieval.model_ env
            [Retrieval.ModelCall p1; Retrieval.RetrieverCall standalone] p2 = Ok answer
       /\ st = stream_map TextEncoder_encode answer
       /\ header "x-sources" (headers r) = Some (Retrieval.serializedSources documents)
       /\ Retrieval.calls (fst (Retrieval.try_block env req Retrieval.initial))
          = [ Retrieval.ModelCall p1; Retrieval.RetrieverCall standalone;
              Retrieval.ModelCall p2 ].
Proof.
  intros HP Hbody. unfold Retrieval.POST in HP.
  assert (Hcaught : forall e, Some (catch_clause e) = Some (Ok r) -> False).
  { intros e [= H]. exact (catch_clause_no_stream e H Hbody). }
  destruct (json_ req) as [b|e] eqn:Hreq.
  2:{ unfold Retrieval.try_block, bind, lift in HP. rewrite Hreq in HP.
      destruct (Hcaught _ HP). }
  pose proof (latest_split (Spec.messages_of b)) as Hsplit.
  destruct (array_get (Spec.messages_of b) _) as [latest|] eqn:Hlast.
  2:{ unfold Retrieval.try_block, bind, lift in HP. rewrite Hreq in HP.
      fold (Spec.messages_of b) in HP. rewrite Hlast in HP. cbn [content_of] in HP.
      destruct (Hcaught _ HP). }
  destruct (try_block_run env req Hreq Hlast) as (p1 & Hp1 & Hrun).
  rewrite Hrun in HP |- *. clear Hrun. cbn zeta in *.
  destruct (Retrieval.model_ env [] p1) as [deltas|e] eqn:Hm;
    [|destruct (Hcaught _ HP)].
  unfold aggregate in *.
  destruct (failure deltas) eqn:Hf; [destruct (Hcaught _ HP)|].
  destruct (chunks deltas) as [|c cs] eqn:Hc; [destruct (Hcaught _ HP)|].
  destruct (Retrieval.similaritySearch env _ _) as [documents|e] eqn:Hs;
    [|destruct (Hcaught _ HP)].
  destruct (Retrieval.answer_text _ _ _) as [p2|e] eqn:Hp2;
    [|destruct (Hcaught _ HP)].
  destruct (Retrieval.model_ env _ p2) as [answer|e] eqn:Ha;
    [|destruct (Hcaught _ HP)].
  destruct (chunks answer) as [|a rest] eqn:Hca;
    [destruct (failure answer) eqn:Hfa; [destruct (Hcaught _ HP)|]|];
    cbn [option_map] in HP; injection HP as <-;
    cbn [body StreamingTextResponse] in Hbody; injection Hbody as <-;
    exists b, latest, p1, deltas, (List.concat (c :: cs)), documents, p2, answer;
    cbn zeta; rewrite ?Hc; repeat split; try assumption; reflexivity.
Qed.

Lemma retrieval_answer_run_witness :
  exists b latest p1 deltas standalone documents p2 answer,
    json_ Scenario.first_question = Ok b
    /\ slice (Spec.messages_of b) 0 (-1) ++ [latest] = Spec.messages_of b
    /\ let history :=
         Retrieval.formatVercelMessages (slice (Spec.messages_of b) 0 (-1)) in
       Retrieval.condense_text history (content latest) = Ok p1
       /\ Retrieval.model_ Scenario.echo [] p1 = Ok deltas
       /\ standalone = List.concat (chunks deltas)
       /\ Retrieval.similaritySearch Scenario.echo [Retrieval.ModelCall p1] standalone
          = Ok documents
       /\ Retrieval.answer_text (Retrieval.combineDocumentsFn documents)
            history standalone = Ok p2
       /\ Retrieval.model_ Scenario.echo
            [Retrieval.ModelCall p1; Retrieval.RetrieverCall standalone] p2 = Ok answer
       /\ {| chunks := [TextEncoder_encode (js "Blue"); TextEncoder_encode (js "!")];
             failure := None |} = stream_map TextEncoder_encode answer
       /\ header "x-sources"
            (headers (StreamingTextResponse
                        {| chunks := [TextEncoder_encode (js "Blue");
                                      TextEncoder_encode (js "!")];
                           failure := None |}
                        [ ("x-message-index", js "1");
                          ("x-sources", Retrieval.serializedSources [Scenario.sky]) ]))
          = Some (Retrieval.serializedSources documents)
       /\ Retrieval.calls
            (fst (Retrieval.try_block Scenario.echo Scenario.first_question
                    Retrieval.initial))
          = [ Retrieval.ModelCall p1; Retrieval.RetrieverCall standalone;
              Retrieval.ModelCall p2 ].
Proof.
  exact (@retrieval_answer_run Scenario.echo Scenario.first_question _ _
           eq_refl eq_refl).
Defined.

(** X10. A failure ends the request where it happens. When the condensing
    call throws, or its stream breaks, the store is never queried and the
    model is not called again; so too when the condensing call delivers
    no chunk, which leaves the question undefined and makes the retriever
    throw. When the search throws, the model is not called for the answer.
    Each time the failure reaches the [catch] clause. *)
Theorem retrieval_failure_stops_the_chain
    (env : Retrieval.Env) (req : NextRequest) (b : RequestBody)
    (latest : VercelChatMessage) (e : JsError) :
  json_ req = Ok b ->
  array_get (Spec.messages_of b) (Z.of_nat (List.length (Spec.messages_of b)) - 1)
    = Some latest ->
  exists p1,
    Retrieval.condense_text
      (Retrieval.formatVercelMessages (slice (Spec.messages_of b) 0 (-1)))
      (content latest) = Ok p1
    /\ ((Retrieval.model_ env [] p1 = Throw e
         \/ exists deltas, Retrieval.model_ env [] p1 = Ok deltas
                           /\ failure deltas = Some e) ->
        Retrieval.POST env req = Some (catch_clause e)
        /\ Retrieval.calls (fst (Retrieval.try_block env req Retrieval.initial))
           = [Retrieval.ModelCall p1])
    /\ (Retrieval.model_ env [] p1 = Ok {| chunks := []; failure := None |} ->
        Retrieval.POST env req = Some (Ok (error_response Retrieval.TypeError_replace))
        /\ http_status (error_response Retrieval.TypeError_replace) = 500%Z
        /\ Retrieval.calls (fst (Retrieval.try_block env req Retrieval.initial))
           = [Retrieval.ModelCall p1])
    /\ (forall deltas,
          Retrieval.model_ env [] p1 = Ok deltas -> failure deltas = None ->
          chunks deltas <> [] ->
          Retrieval.similaritySearch env [Retrieval.ModelCall p1]
            (List.concat (chunks deltas)) = Throw e ->
          Retrieval.POST env req = Some (catch_clause e)
          /\ Retrieval.calls (fst (Retrieval.try_block env req Retrieval.initial))
             = [ Retrieval.ModelCall p1;
                 Retrieval.RetrieverCall (List.concat (chunks deltas)) ]).
Proof.
  intros Hreq Hlast.
  destruct (try_block_run env req Hreq Hlast) as (p1 & Hp1 & Hrun).
  exists p1. split; [exact Hp1|]. unfold Retrieval.POST. rewrite Hrun. cbn zeta.
  split; [|split].
  - intros [Hm|(deltas & Hm & Hf)]; rewrite Hm.
    + split; reflexivity.
    + unfold aggregate. rewrite Hf. split; reflexivity.
  - intros Hm. rewrite Hm. cbn [aggregate chunks failure]. repeat split; reflexivity.
  - intros deltas Hm Hf Hc Hs. rewrite Hm. unfold aggregate. rewrite Hf.
    destruct (chunks deltas) as [|c cs] eqn:E; [congruence|].
    rewrite Hs. split; reflexivity.
Qed.

Lemma retrieval_failure_stops_the_chain_witness :
  Retrieval.POST Scenario.refused Scenario.first_question
    = Some (catch_clause Scenario.unauthorized)
  /\ List.length
       (Retrieval.calls
          (fst (Retrieval.try_block Scenario.refused Scenario.first_question
                  Retrieval.initial))) = 2%nat.
Proof.
  destruct (@retrieval_failure_stops_the_chain Scenario.refused
              Scenario.first_question _ _ Scenario.unauthorized eq_refl eq_refl)
    as (p1 & _ & _ & _ & Hsearch).
  destruct (Hsearch _ eq_refl eq_refl ltac:(discriminate) eq_refl) as (HP & Hcalls).
  split; [exact HP|]. rewrite Hcalls. reflexivity.
Defined.

(** ** The texts the retrieval handler builds *)

Lemma join_length (sep : jsstring) (parts : list jsstring) :
  List.length (join sep parts)
  = (list_sum (map (@List.length N) parts)
     + List.length sep * (List.length parts - 1))%nat.
Proof.
  induction parts as [|p rest IH]; [cbn [join map list_sum fold_right List.length]; lia|].
  destruct rest as [|q rest].
  - cbn [join map list_sum fold_right List.length]. lia.
  - change (join sep (p :: q :: rest)) with (p ++ sep ++ join sep (q :: rest)).
    rewrite !length_app, IH. cbn [map list_sum fold_right List.length]. lia.
Qed.

(** X11. The context handed to the answer prompt is as long as the page
    contents of the documents together plus two line feeds between each
    two neighbours: nothing is cut, nothing is put before the first or
    after the last document, and no document gives the empty context. *)
Theorem combineDocumentsFn_length (docs : list Document) :
  List.length (Retrieval.combineDocumentsFn docs)
  = (list_sum (map (fun doc => List.length (pageContent doc)) docs)
     + 2 * (List.length docs - 1))%nat
  /\ Retrieval.combineDocumentsFn [] = []
  /\ forall doc, Retrieval.combineDocumentsFn [doc] = pageContent doc.
Proof.
  unfold Retrieval.combineDocumentsFn. split; [|split; reflexivity].
  rewrite join_length, map_map, length_map. reflexivity.
Qed.

(** X12. The history text does not mark where a message ends: a user
    message that carries a line feed and the label of the other speaker
    formats to the same text as two messages, so the text handed to the
    model does not determine the history it was made from. *)
Theorem formatVercelMessages_line_feed_forges_a_turn (a b : jsstring) :
  Retrieval.formatVercelMessages
    [ {| role := js "user";
         content := a ++ Retrieval.LF ++ js "Assistant: " ++ b |} ]
  = Retrieval.formatVercelMessages
      [ {| role := js "user"; content := a |};
        {| role := js "assistant"; content := b |} ].
Proof.
  unfold Retrieval.formatVercelMessages. cbn [map role content join].
  change (jsstring_eqb (js "user") (js "user")) with true.
  change (jsstring_eqb (js "assistant") (js "user")) with false.
  change (jsstring_eqb (js "assistant") (js "assistant")) with true.
  cbv iota. rewrite <- !app_assoc. reflexivity.
Qed.

(** X13. The [x-sources] header is made of the 64 characters of base64
    and the padding sign only, whatever the page contents and metadata
    are, and it is four characters for every three octets of the JSON
    text, rounded up. *)
Theorem serializedSources_is_base64_text (documents : list Document) :
  let octets :=
    Buffer_from (JSON_stringify (JArr (map Retrieval.source_entry documents))) in
  Forall (fun c => (65 <= c <= 90 \/ 97 <= c <= 122 \/ 48 <= c <= 57
                    \/ c = 43 \/ c = 47 \/ c = 61)%N)
         (Retrieval.serializedSources documents)
  /\ List.length (Retrieval.serializedSources documents)
     = (4 * ((List.length octets + 2) / 3))%nat.
Proof.
  intro octets. unfold Retrieval.serializedSources. fold octets.
  assert (Hchar : forall d, (65 <= base64_char d <= 90 \/ 97 <= base64_char d <= 122
                             \/ 48 <= base64_char d <= 57 \/ base64_char d = 43
                             \/ base64_char d = 47 \/ base64_char d = 61)%N).
  { intro d. unfold base64_char.
    destruct (N.ltb_spec d 26); [lia|].
    destruct (N.ltb_spec d 52); [lia|].
    destruct (N.ltb_spec d 62); [lia|].
    destruct (N.eqb_spec d 62); lia. }
  assert (H : forall n (b : buffer), (List.length b <= n)%nat ->
            Forall (fun c => (65 <= c <= 90 \/ 97 <= c <= 122 \/ 48 <= c <= 57
                              \/ c = 43 \/ c = 47 \/ c = 61)%N) (toString_base64 b)
            /\ List.length (toString_base64 b) = (4 * ((List.length b + 2) / 3))%nat).
  { induction n as [n IH] using lt_wf_ind. intros b Hlen.
    destruct b as [|x [|y [|z rest]]].
    - split; [constructor|reflexivity].
    - split; [|reflexivity]. cbn [toString_base64].
      constructor; [apply Hchar|]. constructor; [apply Hchar|].
      constructor; [lia|]. constructor; [lia|]. constructor.
    - split; [|reflexivity]. cbn [toString_base64].
      constructor; [apply Hchar|]. constructor; [apply Hchar|].
      constructor; [apply Hchar|]. constructor; [lia|]. constructor.
    - cbn [List.length] in Hlen.
      destruct (IH (List.length rest) ltac:(lia) rest (le_n _)) as (Hall & Hl).
      cbn [toString_base64 app]. split.
      + repeat (constructor; [apply Hchar|]). exact Hall.
      + cbn [List.length]. rewrite Hl.
        replace (S (S (S (List.length rest))) + 2)%nat
          with (List.length rest + 2 + 1 * 3)%nat by lia.
        rewrite Nat.div_add by discriminate. lia. }
  exact (H _ octets (le_n _)).
Qed.

(** X14. The client reads the header back: decoding [x-sources] from
    base64 gives the UTF-8 octets of the JSON text the handler encoded,
    for documents whose strings are made of code units. *)
Theorem serializedSources_reads_back (documents : list Document) :
  Forall (fun doc => code_units (pageContent doc) /\ well_formed (metadata doc))
         documents ->
  Buffer_from_base64 (Retrieval.serializedSources documents)
  = Buffer_from (JSON_stringify (JArr (map Retrieval.source_entry documents))).
Proof.
  intro H. unfold Retrieval.serializedSources. apply base64_of_text_reads_back.
  apply JSON_stringify_code_units. apply sources_well_formed. exact H.
Qed.

Lemma serializedSources_reads_back_witness :
  Buffer_from_base64 (Retrieval.serializedSources [Scenario.sky])
  = Buffer_from (JSON_stringify (JArr (map Retrieval.source_entry [Scenario.sky]))).
Proof.
  apply (@serializedSources_reads_back [Scenario.sky]).
  constructor; [|constructor].
  cbn [well_formed Scenario.sky metadata pageContent fst snd].
  repeat split; apply js_code_units.
Defined.

(** ** The agent handler: conversions, failures and the stream *)

(** X15. A message of role [user] or [assistant] keeps its role and its
    content through the conversion to a message of the library and back;
    a message of any other role comes back with the role [generic]. *)
Theorem message_conversion_round_trip (message : VercelChatMessage) :
  (Agents.kept message = true ->
   exists more,
     Agents.convertLangChainMessageToVercelMessage
       (Agents.convertVercelMessageToLangChainMessage message)
     = JObj ((js "content", JStr (content message))
             :: (js "role", JStr (role message)) :: more))
  /\ (Agents.kept message = false ->
      Agents.convertLangChainMessageToVercelMessage
        (Agents.convertVercelMessageToLangChainMessage message)
      = JObj [ (js "content", JStr (content message));
               (js "role", JStr (js "generic")) ]).
Proof.
  unfold Agents.kept, Agents.convertVercelMessageToLangChainMessage.
  destruct (jsstring_eqb (role message) (js "user")) eqn:Hu.
  - apply jsstring_eqb_eq in Hu. split; [|discriminate].
    intros _. exists []. rewrite Hu. reflexivity.
  - destruct (jsstring_eqb (role message) (js "assistant")) eqn:Ha.
    + apply jsstring_eqb_eq in Ha. split; [|discriminate].
      intros _. eexists. rewrite Ha. reflexivity.
    + split; [discriminate|]. intros _. reflexivity.
Qed.

Lemma message_conversion_round_trip_witness :
  exists more,
    Agents.convertLangChainMessageToVercelMessage
      (Agents.convertVercelMessageToLangChainMessage (Scenario.assistant "Squawk! 4"))
    = JObj ((js "content", JStr (js "Squawk! 4"))
            :: (js "role", JStr (js "assistant")) :: more).
Proof.
  exact (proj1 (message_conversion_round_trip (Scenario.assistant "Squawk! 4")) eq_refl).
Defined.

Lemma start_app (es1 es2 : list Agents.StreamEvent) (ending : option JsError) :
  Forall (fun ev => Agents.event ev = js "on_chat_model_stream" ->
                    Agents.chunk ev <> None) es1 ->
  Agents.start (es1 ++ es2) ending
  = {| chunks := map TextEncoder_encode (flat_map text_delta es1)
                 ++ chunks (Agents.start es2 ending);
       failure := failure (Agents.start es2 ending) |}.
Proof.
  induction 1 as [|ev rest Hev _ IH]; cbn [app flat_map map].
  - destruct (Agents.start es2 ending). reflexivity.
  - cbn [Agents.start]. unfold text_delta at 1.
    destruct (jsstring_eqb (Agents.event ev) _) eqn:E.
    + apply jsstring_eqb_eq in E. specialize (Hev E).
      destruct (Agents.chunk ev) as [c|]; [|congruence].
      destruct (Agents.delta c); rewrite IH; reflexivity.
    + rewrite IH. reflexivity.
Qed.

(** X18. An event of the chat model that carries no chunk breaks the
    stream off with a [TypeError]: the texts of the events before it have
    been put into the stream, no text after it is, and the stream is
    errored whatever the end of the event stream would have been. Its
    reader gets a beginning of those texts, as far as it had read, and
    then the error. *)
Theorem event_without_chunk_ends_the_stream
    (es1 es2 : list Agents.StreamEvent) (ev : Agents.StreamEvent)
    (ending : option JsError) :
  Forall (fun ev => Agents.event ev = js "on_chat_model_stream" ->
                    Agents.chunk ev <> None) es1 ->
  Agents.event ev = js "on_chat_model_stream" ->
  Agents.chunk ev = None ->
  let sent := Agents.transformStream {| chunks := es1 ++ ev :: es2; failure := ending |} in
  sent = {| chunks := map TextEncoder_encode (flat_map text_delta es1);
            failure := Some TypeError_content |}
  /\ forall received final,
       reads sent received final ->
       final = Some TypeError_content
       /\ exists n,
            received = firstn n (map TextEncoder_encode (flat_map text_delta es1)).
Proof.
  intros Hwf Hev Hchunk sent.
  assert (Hsent : sent = {| chunks := map TextEncoder_encode (flat_map text_delta es1);
                            failure := Some TypeError_content |}).
  { subst sent. unfold Agents.transformStream. cbn [chunks failure].
    rewrite (start_app (ev :: es2) ending Hwf). cbn [Agents.start].
    apply jsstring_eqb_eq in Hev. rewrite Hev, Hchunk. cbn [chunks failure].
    rewrite app_nil_r. reflexivity. }
  split; [exact Hsent|]. rewrite Hsent. intros received final H.
  inversion H as [Hclosed|e n He]; cbn [chunks failure] in *.
  - discriminate Hclosed.
  - split; [congruence|]. exists n. reflexivity.
Qed.

Lemma event_without_chunk_ends_the_stream_witness :
  Agents.transformStream
    {| chunks := [Scenario.token "Squawk"]
                 ++ {| Agents.event := js "on_chat_model_stream";
                       Agents.chunk := None |} :: [Scenario.token "4"];
       failure := None |}
  = {| chunks := map TextEncoder_encode (flat_map text_delta [Scenario.token "Squawk"]);
       failure := Some TypeError_content |}.
Proof.
  apply event_without_chunk_ends_the_stream; try reflexivity.
  repeat constructor. cbn. discriminate.
Defined.

(** ** The chat and the structured-output handlers *)

Lemma slice_snoc (A : Type) (h : list A) (m : A) : slice (h ++ [m]) 0 (-1) = h.
Proof. rewrite slice_0_minus_1. apply removelast_last. Qed.

Lemma array_get_snoc (A : Type) (h : list A) (m : A) :
  array_get (h ++ [m]) (Z.of_nat (List.length (h ++ [m])) - 1) = Some m.
Proof.
  unfold array_get. rewrite length_app. cbn [List.length].
  destruct (Z.ltb_spec (Z.of_nat (List.length h + 1) - 1) 0) as [H|H]; [lia|].
  replace (Z.to_nat (Z.of_nat (List.length h + 1) - 1)) with (List.length h) by lia.
  rewrite nth_error_app2 by lia. rewrite Nat.sub_diag. reflexivity.
Qed.

(** X19. The chat handler and the structured-output handler answer a
    request whose message list is empty or missing with the JSON error of
    the [TypeError], status 500, and do not call the model. *)
Theorem chat_and_structured_output_refuse_an_empty_list
    (chat : Chat.Env) (structured : StructuredOutput.Env) (b : RequestBody) :
  Spec.messages_of b = [] ->
  let req := {| json_ := Ok b |} in
  Chat.POST chat req = Ok (error_response TypeError_content)
  /\ fst (Chat.try_block chat req []) = []
  /\ StructuredOutput.POST structured req = Ok (error_response TypeError_content)
  /\ fst (StructuredOutput.try_block structured req []) = []
  /\ http_status (error_response TypeError_content) = 500%Z.
Proof.
  intros Hempty req. subst req.
  unfold Chat.POST, Chat.try_block, StructuredOutput.POST,
    StructuredOutput.try_block, bind, lift. cbn [json_].
  fold (Spec.messages_of b). rewrite Hempty. cbn. repeat split; reflexivity.
Qed.

Lemma chat_and_structured_output_refuse_an_empty_list_witness :
  Chat.POST {| Chat.model_ := fun _ => Throw Scenario.unauthorized |}
    (Scenario.request [] false)
  = Ok (error_response TypeError_content).
Proof.
  exact (proj1 (@chat_and_structured_output_refuse_an_empty_list
                  {| Chat.model_ := fun _ => Throw Scenario.unauthorized |}
                  {| StructuredOutput.functionCallingModel_ :=
                       fun _ => Throw Scenario.unauthorized |}
                  {| messages := Some []; show_intermediate_steps := false |}
                  eq_refl)).
Defined.

(** X20. The structured-output handler reads the content of the latest
    message and nothing else: two requests whose latest messages have the
    same content get the same answer, whatever the earlier messages and
    the roles are; and what the model returns is the body as it is, under
    status 200. *)
Theorem structured_output_reads_the_latest_content_only
    (env : StructuredOutput.Env) (h1 h2 : list VercelChatMessage)
    (m1 m2 : VercelChatMessage) (steps1 steps2 : bool) :
  content m1 = content m2 ->
  let req1 := {| json_ := Ok {| messages := Some (h1 ++ [m1]);
                                show_intermediate_steps := steps1 |} |} in
  let req2 := {| json_ := Ok {| messages := Some (h2 ++ [m2]);
                                show_intermediate_steps := steps2 |} |} in
  StructuredOutput.POST env req1 = StructuredOutput.POST env req2
  /\ exists prompt_text,
       format StructuredOutput.TEMPLATE [ ("input", content m1) ] = Ok prompt_text
       /\ forall result,
            StructuredOutput.functionCallingModel_ env prompt_text = Ok result ->
            StructuredOutput.POST env req1
            = Ok {| http_status := 200; headers := []; body := JsonBody result |}.
Proof.
  intros Hc req1 req2. subst req1 req2.
  unfold StructuredOutput.POST, StructuredOutput.try_block, bind, lift.
  cbn [json_ messages]. rewrite !array_get_snoc. cbn [content_of]. rewrite Hc.
  split; [reflexivity|].
  eexists. split; [reflexivity|]. intros result Hresult.
  unfold StructuredOutput.chain, StructuredOutput.functionCallingModel, pipe, prompt,
    bind, lift, ret.
  cbn -[js Retrieval.LF NextResponse_json].
  cbn -[js Retrieval.LF] in Hresult. rewrite Hresult.
  reflexivity.
Qed.

Lemma structured_output_reads_the_latest_content_only_witness :
  StructuredOutput.POST
    {| StructuredOutput.functionCallingModel_ := fun _ => Ok (JObj []) |}
    (Scenario.request ([] ++ [Scenario.user "hello"]) false)
  = StructuredOutput.POST
      {| StructuredOutput.functionCallingModel_ := fun _ => Ok (JObj []) |}
      (Scenario.request ([Scenario.user "hi"; Scenario.assistant "Squawk"]
                         ++ [Scenario.assistant "hello"]) true).
Proof.
  exact (proj1 (@structured_output_reads_the_latest_content_only
                  {| StructuredOutput.functionCallingModel_ := fun _ => Ok (JObj []) |}
                  [] [Scenario.user "hi"; Scenario.assistant "Squawk"]
                  (Scenario.user "hello") (Scenario.assistant "hello") false true
                  eq_refl)).
Defined.

(** X21. The retrieval handler and the chat handler take the latest
    message as the question whatever its role is: two requests with the
    same history whose latest messages have the same content get the same
    answer. *)
Theorem latest_message_role_is_not_read
    (retrieval : Retrieval.Env) (chat : Chat.Env) (h : list VercelChatMessage)
    (m1 m2 : VercelChatMessage) (steps : bool) :
  content m1 = content m2 ->
  let req1 := {| json_ := Ok {| messages := Some (h ++ [m1]);
                                show_intermediate_steps := steps |} |} in
  let req2 := {| json_ := Ok {| messages := Some (h ++ [m2]);
                                show_intermediate_steps := steps |} |} in
  Retrieval.POST retrieval req1 = Retrieval.POST retrieval req2
  /\ Chat.POST chat req1 = Chat.POST chat req2.
Proof.
  intros Hc req1 req2. subst req1 req2.
  unfold Retrieval.POST, Retrieval.try_block, Chat.POST, Chat.try_block, bind, lift.
  cbn [json_ messages]. rewrite !array_get_snoc, !slice_snoc. cbn [content_of].
  rewrite Hc. split; reflexivity.
Qed.

Lemma latest_message_role_is_not_read_witness :
  Retrieval.POST Scenario.echo
    (Scenario.request ([] ++ [Scenario.user "what color is the sky?"]) false)
  = Retrieval.POST Scenario.echo
      (Scenario.request ([] ++ [Scenario.assistant "what color is the sky?"]) false).
Proof.
  exact (proj1 (@latest_message_role_is_not_read Scenario.echo
                  {| Chat.model_ := fun _ => Throw Scenario.unauthorized |} []
                  (Scenario.user "what color is the sky?")
                  (Scenario.assistant "what color is the sky?") false eq_refl)).
Defined.

(** ** The chat window: where sources and steps are shown *)

Lemma js_inj (s1 s2 : string) : js s1 = js s2 -> s1 = s2.
Proof.
  unfold js. intro H.
  assert (Hl : list_ascii_of_string s1 = list_ascii_of_string s2).
  { revert H. generalize (list_ascii_of_string s1) (list_ascii_of_string s2).
    induction l as [|a l IH]; intros [|b l']; cbn [map]; try discriminate;
      [reflexivity|].
    intros [= Hab Hrest]. f_equal; [|apply IH; exact Hrest].
    rewrite <- (ascii_N_embedding a), <- (ascii_N_embedding b), Hab. reflexivity. }
  rewrite <- (string_of_list_ascii_of_string s1),
          <- (string_of_list_ascii_of_string s2), Hl.
  reflexivity.
Qed.

Lemma Number_toString_inj (a b : N) : Number_toString a = Number_toString b -> a = b.
Proof.
  intro H. unfold Number_toString in H. apply js_inj in H.
  pose proof (proj2 (Number_toString_decimal a)) as Ha.
  pose proof (proj2 (Number_toString_decimal b)) as Hb.
  rewrite H in Ha. congruence.
Qed.

Lemma render_nth (total : nat) (S0 : Client.Sources) (messages : list Client.Message) :
  forall start i m,
    nth_error messages i = Some m ->
    nth_error (Client.render total S0 start messages) i
    = Some (if jsstring_eqb (Client.role m) (js "system") then Client.IntermediateStep m
            else Client.ChatMessageBubble m
                   (Client.get (Number_toString (N.of_nat (total - 1 - (start + i)))) S0)).
Proof.
  induction messages as [|x rest IH]; intros start i m Hm.
  - destruct i; discriminate Hm.
  - destruct i as [|i]; cbn [nth_error Client.render] in *.
    + injection Hm as ->. rewrite Nat.add_0_r. reflexivity.
    + rewrite (IH (S start) i m Hm). replace (S start + i)%nat with (start + S i)%nat
        by lia. reflexivity.
Qed.

(** X22. [ChatMessages] shows, on the bubble at position [i] of [n]
    messages, the sources stored under the key [n - 1 - i]: the sources
    that [onResponse] stores under the index [k] of the header are shown
    on the bubble at position [n - 1 - k] and on no other; a message of
    role [system] is shown as a step, without sources. So after an answer
    to a request of [k] messages, when the list has [k + 1] messages, the
    sources are on the first bubble. *)
Theorem sources_are_shown_at_the_mirrored_position
    (messages : list Client.Message) (stored : Client.Sources)
    (sources : list json) (k : nat) (i : nat) (m : Client.Message) :
  sources <> [] ->
  nth_error messages i = Some m ->
  let after := Client.onResponse sources (Some (Number_toString (N.of_nat k))) stored in
  nth_error (Client.ChatMessages messages after) i
  = Some (if jsstring_eqb (Client.role m) (js "system") then Client.IntermediateStep m
          else Client.ChatMessageBubble m
                 (if (List.length messages - 1 - i =? k)%nat then Some (JArr sources)
                  else Client.get
                         (Number_toString (N.of_nat (List.length messages - 1 - i)))
                         stored)).
Proof.
  intros Hne Hm after. subst after. unfold Client.ChatMessages.
  rewrite (render_nth _ _ _ 0 _ Hm). cbn [Nat.add].
  destruct (jsstring_eqb (Client.role m) (js "system")); [reflexivity|].
  do 2 f_equal. unfold Client.onResponse.
  destruct sources as [|x sources]; [congruence|]. cbn [Client.get].
  destruct (Nat.eqb_spec (List.length messages - 1 - i) k) as [->|Hk].
  - rewrite (proj2 (jsstring_eqb_eq _ _) eq_refl). reflexivity.
  - destruct (jsstring_eqb _ _) eqn:E; [|reflexivity].
    apply jsstring_eqb_eq in E. apply Number_toString_inj in E. lia.
Qed.

Lemma sources_are_shown_at_the_mirrored_position_witness :
  let question :=
    {| Client.id := js "q"; Client.role := js "user";
       Client.content := js "what color is the sky?"; Client.tool_calls := None |} in
  let answer :=
    {| Client.id := js "a"; Client.role := js "assistant";
       Client.content := js "Blue!"; Client.tool_calls := None |} in
  nth_error
    (Client.ChatMessages [question; answer]
       (Client.onResponse [JNull] (Some (js "1")) []))
    0
  = Some (Client.ChatMessageBubble question (Some (JArr [JNull]))).
Proof.
  intros question answer.
  exact (@sources_are_shown_at_the_mirrored_position [question; answer] [] [JNull]
           1 0 question ltac:(discriminate) eq_refl).
Defined.

Lemma intermediateStepMessages_spec (n : nat) : forall (next : nat) (l : list Client.Message),
  (List.length l <= n)%nat ->
  List.length (Client.intermediateStepMessages next l) = ((List.length l + 1) / 2)%nat
  /\ Forall (fun m => Client.role m = js "system")
            (Client.intermediateStepMessages next l)
  /\ map Client.id (Client.intermediateStepMessages next l)
     = map (fun j => Number_toString (N.of_nat j))
           (seq next ((List.length l + 1) / 2)).
Proof.
  induction n as [n IH] using lt_wf_ind. intros next l Hlen.
  destruct l as [|a [|t rest]].
  - repeat split; constructor.
  - repeat split; repeat constructor.
  - cbn [List.length] in Hlen.
    destruct (IH (List.length rest) ltac:(lia) (S next) rest (le_n _))
      as (Hl & Hall & Hids).
    cbn [Client.intermediateStepMessages List.length].
    replace (S (S (List.length rest)) + 1)%nat with (List.length rest + 1 + 1 * 2)%nat
      by lia.
    rewrite Nat.div_add by discriminate. rewrite Nat.add_1_r.
    cbn [seq map List.length]. rewrite Hl, Hids. repeat split.
    constructor; [reflexivity|exact Hall].
Qed.

(** X23. With intermediate steps on and a reply that is ok and not empty,
    [sendMessage] ends with the list it had, then the input as a user
    message, then one system message for every two tool-related messages
    of the reply (rounded up), then the content of the last message of
    the reply as the assistant's. The ids of the messages it appends are
    the consecutive numbers from the length of the list it had. *)
Theorem sendMessage_appends_steps_and_answer
    (chat_messages : list Client.Message) (chat_input : jsstring)
    (reply : Client.Reply) (final : Client.Message) :
  Client.ok reply = true ->
  array_get (Client.reply_messages reply)
    (Z.of_nat (List.length (Client.reply_messages reply)) - 1) = Some final ->
  exists user steps answer,
    Client.sendMessage chat_messages chat_input reply
    = Client.Shown (chat_messages ++ [user] ++ steps ++ [answer])
    /\ Client.role user = js "user" /\ Client.content user = chat_input
    /\ Forall (fun m => Client.role m = js "system") steps
    /\ List.length steps
       = ((List.length (filter Client.isToolCallMessage (Client.reply_messages reply))
           + 1) / 2)%nat
    /\ Client.role answer = js "assistant"
    /\ Client.content answer = Client.content final
    /\ map Client.id ([user] ++ steps ++ [answer])
       = map (fun j => Number_toString (N.of_nat j))
             (seq (List.length chat_messages) (List.length steps + 2)).
Proof.
  intros Hok Hfinal. unfold Client.sendMessage, Client.messagesWithUserReply.
  rewrite Hok, Hfinal. cbn [negb].
  set (tcm := filter Client.isToolCallMessage (Client.reply_messages reply)).
  rewrite !length_app. cbn [List.length].
  destruct (intermediateStepMessages_spec (List.length chat_messages + 1) tcm (le_n _))
    as (Hl & Hall & Hids).
  set (steps := Client.intermediateStepMessages (List.length chat_messages + 1) tcm) in *.
  eexists. exists steps. eexists. split.
  - rewrite <- !app_assoc. reflexivity.
  - cbn [Client.role Client.content]. repeat split; try assumption.
    rewrite !map_app, Hids. cbn [map Client.id app].
    rewrite Hl. set (k := ((List.length tcm + 1) / 2)%nat).
    replace (k + 2)%nat with (S (k + 1)) by lia. cbn [seq map]. f_equal.
    rewrite seq_app, map_app. cbn [seq map].
    replace (S (List.length chat_messages)) with (List.length chat_messages + 1)%nat
      by lia.
    replace (List.length chat_messages + 1 + k)%nat
      with (List.length chat_messages + 1 + k)%nat by lia.
    reflexivity.
Qed.

Lemma sendMessage_appends_steps_and_answer_witness :
  let call :=
    {| Client.id := js "run-1"; Client.role := js "assistant"; Client.content := [];
       Client.tool_calls :=
         Some [ JObj [ (js "name", JStr (js "calculator"));
                       (js "args", JObj [ (js "input", JStr (js "2+2")) ]) ] ] |} in
  let observed :=
    {| Client.id := js "run-2"; Client.role := js "tool"; Client.content := js "4";
       Client.tool_calls := None |} in
  let final :=
    {| Client.id := js "run-3"; Client.role := js "assistant";
       Client.content := js "Squawk! 4"; Client.tool_calls := Some [] |} in
  let reply :=
    {| Client.ok := true; Client.error := None;
       Client.reply_messages := [call; observed; final] |} in
  exists user steps answer,
    Client.sendMessage [] (js "What is 2+2?") reply
    = Client.Shown ([] ++ [user] ++ steps ++ [answer])
    /\ Client.role user = js "user" /\ Client.content user = js "What is 2+2?"
    /\ Forall (fun m => Client.role m = js "system") steps
    /\ List.length steps = 1%nat
    /\ Client.role answer = js "assistant"
    /\ Client.content answer = js "Squawk! 4"
    /\ map Client.id ([user] ++ steps ++ [answer]) = [js "0"; js "1"; js "2"].
Proof.
  intros call observed final reply.
  destruct (@sendMessage_appends_steps_and_answer [] (js "What is 2+2?") reply final
              eq_refl eq_refl)
    as (user & steps & answer & Hshown & Hu & Hc & Hsteps & Hlen & Ha & Hf & Hids).
  exists user, steps, answer.
  rewrite Hlen in Hids.
  repeat split; assumption.
Defined.

Lemma filter_kept_steps (steps : list Client.Message) :
  Forall (fun m => Client.role m = js "system") steps ->
  filter Agents.kept
    (map (fun m => {| role := Client.role m; content := Client.content m |}) steps)
  = [].
Proof.
  induction 1 as [|m steps Hm _ IH]; [reflexivity|].
  cbn [map filter]. unfold Agents.kept at 1. cbn [role]. rewrite Hm, IH. reflexivity.
Qed.

(** X24. The steps that [sendMessage] shows are not read by the agent:
    when the list it showed is sent with the next input, the handler
    passes to the agent what it would have passed of the earlier list,
    then the earlier input, the answer of the earlier reply and the next
    input, and none of the system messages in between. *)
Theorem shown_steps_never_reach_the_agent
    (env : Agents.Env) (chat_messages shown : list Client.Message)
    (chat_input next_input : jsstring) (reply : Client.Reply) :
  Client.sendMessage chat_messages chat_input reply = Client.Shown shown ->
  exists final,
    last (Client.reply_messages reply) final = final
    /\ In final (Client.reply_messages reply)
    /\ fst (Agents.try_block env
              {| json_ := Ok (Client.request_body
                                (Client.messagesWithUserReply shown next_input)) |} [])
       = [ Agents.InvokeCall
             (map Agents.convertVercelMessageToLangChainMessage
                (filter Agents.kept
                   (Spec.messages_of (Client.request_body chat_messages)))
              ++ [ Agents.HumanMessage chat_input;
                   Agents.AIMessage (Client.content final) [];
                   Agents.HumanMessage next_input ]) ].
Proof.
  unfold Client.sendMessage. destruct (Client.ok reply); cbn [negb]; [|discriminate].
  destruct (array_get _ _) as [final|] eqn:Hfinal; [|discriminate].
  intros [= <-]. exists final.
  assert (Hlast : last (Client.reply_messages reply) final = final
                  /\ In final (Client.reply_messages reply)).
  { destruct (Client.reply_messages reply) as [|x l] using rev_ind;
      [discriminate Hfinal|].
    rewrite array_get_snoc in Hfinal. injection Hfinal as ->.
    rewrite last_last. split; [reflexivity|]. apply in_or_app. right. left. reflexivity. }
  destruct Hlast as [Hl Hin]. split; [exact Hl|]. split; [exact Hin|].
  unfold Agents.try_block, bind, lift, ret, Agents.invoke, Client.request_body.
  cbn [json_ show_intermediate_steps messages negb Spec.messages_of].
  destruct (Agents.agent_invoke env _); cbn [fst app]; do 2 f_equal.
  all: unfold Client.messagesWithUserReply.
  all: rewrite !map_app, !filter_app, !map_app.
  all: rewrite (filter_kept_steps
                  (proj1 (proj2 (intermediateStepMessages_spec
                                   (n := List.length
                                           (filter Client.isToolCallMessage
                                              (Client.reply_messages reply)))
                                   _ _ (le_n _))))).
  all: rewrite <- !app_assoc; reflexivity.
Qed.

Lemma shown_steps_never_reach_the_agent_witness :
  let call :=
    {| Client.id := js "run-1"; Client.role := js "assistant"; Client.content := [];
       Client.tool_calls :=
         Some [ JObj [ (js "name", JStr (js "calculator"));
                       (js "args", JObj [ (js "input", JStr (js "2+2")) ]) ] ] |} in
  let observed :=
    {| Client.id := js "run-2"; Client.role := js "tool"; Client.content := js "4";
       Client.tool_calls := None |} in
  let final :=
    {| Client.id := js "run-3"; Client.role := js "assistant";
       Client.content := js "Squawk! 4"; Client.tool_calls := Some [] |} in
  let reply :=
    {| Client.ok := true; Client.error := None;
       Client.reply_messages := [call; observed; final] |} in
  let shown :=
    match Client.sendMessage [] (js "What is 2+2?") reply with
    | Client.Shown messages => messages
    | _ => []
    end in
  List.length shown = 3%nat
  /\ fst (Agents.try_block Scenario.interrupted
            {| json_ := Ok (Client.request_body
                              (Client.messagesWithUserReply shown (js "And 3+3?"))) |} [])
     = [ Agents.InvokeCall
           [ Agents.HumanMessage (js "What is 2+2?");
             Agents.AIMessage (js "Squawk! 4") [];
             Agents.HumanMessage (js "And 3+3?") ] ].
Proof.
  intros call observed final reply shown. split; [reflexivity|].
  destruct (@shown_steps_never_reach_the_agent Scenario.interrupted [] shown
              (js "What is 2+2?") (js "And 3+3?") reply eq_refl)
    as (final' & Hlast & _ & Hcall).
  cbn in Hlast. subst final'. exact Hcall.
Defined.

